(** * Okapiq market-intelligence core: a shallow embedding in Rocq

    Modules:
    - [PyStr]      : the Python string operations the core relies on
                     ([str.lower], [in], [strip], [\b] word boundaries).
    - [Relevance]  : [_is_relevant_business]
                     (backend/app/routers/intelligence_working_fixed.py).
    - [Analytics]  : [calculate_hhi_index], [calculate_business_density]
                     and the census lookup
                     (backend/app/services/mathematical_analytics_service.py).
    - [Revenue]    : [calculate_revenue_estimate] (same file), over the reals
                     because it uses [math.log].
    - [Dedup]      : [aggregate_business_data]
                     (backend/app/routers/intelligence.py).

    Python floats are modelled as exact rationals [Q] (or reals [R] where a
    logarithm is taken). *)

From Stdlib Require Import String Ascii List Bool Arith ZArith Lia Permutation.
From Stdlib Require Import QArith Qround Lqa.
From Stdlib Require Import Reals Lra.
Import ListNotations.

Open Scope string_scope.
Delimit Scope string_scope with string.

(* ------------------------------------------------------------------ *)
(** ** Python string helpers (ASCII model) *)
Module PyStr.
Local Open Scope nat_scope.

(** [str.lower] on ASCII characters. *)
Definition lower_char (c : ascii) : ascii :=
  let n := nat_of_ascii c in
  if (65 <=? n) && (n <=? 90) then ascii_of_nat (n + 32) else c.

Fixpoint lower (s : string) : string :=
  match s with
  | EmptyString => EmptyString
  | String c s' => String (lower_char c) (lower s')
  end.

(** Python [k in s] for strings; the empty string is contained in every
    string. *)
Fixpoint contains (k s : string) : bool :=
  prefix k s ||
  match s with
  | EmptyString => false
  | String _ s' => contains k s'
  end.

(** Regex [\w] (ASCII): letters, digits and underscore. *)
Definition is_word_char (c : ascii) : bool :=
  let n := nat_of_ascii c in
  ((48 <=? n) && (n <=? 57)) || ((65 <=? n) && (n <=? 90)) ||
  ((97 <=? n) && (n <=? 122)) || (n =? 95).

(** Regex [\s] and [str.isspace] (ASCII): space, \t, \n, \v, \f, \r and
    the separators 0x1c-0x1f. *)
Definition is_space (c : ascii) : bool :=
  let n := nat_of_ascii c in
  (n =? 32) || ((9 <=? n) && (n <=? 13)) || ((28 <=? n) && (n <=? 31)).

Definition word_before (prev : option ascii) : bool :=
  match prev with Some c => is_word_char c | None => false end.

Definition word_at (s : string) : bool :=
  match s with String c _ => is_word_char c | EmptyString => false end.

(** [re.search(r'\b' + re.escape(k) + r'\b', s)] for a keyword [k] made of
    word characters: an occurrence of [k] with no word character right before
    it and none right after it. [prev] is the character before [s]. *)
Fixpoint search_wb_from (prev : option ascii) (k s : string) : bool :=
  (prefix k s && negb (word_before prev)
     && negb (word_at (substring (String.length k) (String.length s) s))) ||
  match s with
  | EmptyString => false
  | String c s' => search_wb_from (Some c) k s'
  end.

Definition search_wb (k s : string) : bool := search_wb_from None k s.

(** [str.strip()]: drop leading and trailing whitespace. *)
Fixpoint lstrip (s : string) : string :=
  match s with
  | String c s' => if is_space c then lstrip s' else s
  | EmptyString => EmptyString
  end.

Fixpoint rev_str (s : string) (acc : string) : string :=
  match s with
  | EmptyString => acc
  | String c s' => rev_str s' (String c acc)
  end.

Definition strip (s : string) : string :=
  rev_str (lstrip (rev_str (lstrip s) EmptyString)) EmptyString.

End PyStr.

(* ------------------------------------------------------------------ *)
(** ** Relevance filter: [_is_relevant_business] *)
Module Relevance.
Import PyStr.
Local Open Scope nat_scope.

(** The [industry_keywords] table. *)
Definition industry_keywords (industry_lower : string) : list string :=
  if String.eqb industry_lower "hvac" then
    ["hvac"; "heating"; "cooling"; "air conditioning"; "ac"; "furnace";
     "heat pump"; "ductwork"; "ventilation"; "climate control"; "thermal";
     "refrigeration"; "boiler"; "geothermal"]
  else if String.eqb industry_lower "plumbing" then
    ["plumbing"; "plumber"; "pipe"; "drain"; "sewer"; "water heater";
     "faucet"; "toilet"; "sink"; "bathroom"; "kitchen"; "leak"]
  else if String.eqb industry_lower "electrical" then
    ["electric"; "electrical"; "electrician"; "wiring"; "circuit";
     "panel"; "outlet"; "lighting"; "generator"; "solar"]
  else if String.eqb industry_lower "landscaping" then
    ["landscape"; "landscaping"; "lawn"; "garden"; "tree"; "grass";
     "irrigation"; "sprinkler"; "yard"; "outdoor"; "nursery"]
  else if String.eqb industry_lower "automotive" then
    ["auto"; "car"; "vehicle"; "automotive"; "repair"; "service";
     "mechanic"; "garage"; "tire"; "oil"; "brake"; "engine"]
  else if String.eqb industry_lower "restaurant" then
    ["restaurant"; "cafe"; "diner"; "grill"; "kitchen"; "food";
     "dining"; "bistro"; "eatery"; "pizza"; "burger"; "bar"]
  else [].

(** The [exclusion_keywords] list literal as Python parses it: each
    conditional expression [x if c else ''] is one element of the list, so
    it governs only the single string [x] before it. *)
Definition exclusion_keywords (industry_lower : string) : list string :=
  ["church"; "temple"; "mosque"; "synagogue"; "religious"; "ministry";
   "radio"; "tv"; "television"; "broadcast"; "media"; "station";
   "school"; "university"; "college"; "education"; "library";
   "government"; "city"; "county"; "state"; "federal"; "municipal";
   "hospital"; "medical center";
   (if negb (String.eqb industry_lower "healthcare") then "clinic" else EmptyString);
   "bank"; "credit union"; "financial";
   (if negb ((String.eqb industry_lower "accounting") || (String.eqb industry_lower "financial"))
    then "insurance" else EmptyString);
   "museum"; "gallery"; "theater";
   (if negb (String.eqb industry_lower "entertainment") then "entertainment" else EmptyString)].

Definition hvac_patterns : list string :=
  ["heating"; "cooling"; "climate"; "comfort"; "thermal"; "mechanical";
   "contractor"].

(** One keyword test: word-bounded search for short keywords, substring
    search otherwise ([limit] is 2 for industry keywords, 3 for the HVAC
    patterns). *)
Definition keyword_hit (limit : nat) (name_lower keyword : string) : bool :=
  if String.length keyword <=? limit then search_wb keyword name_lower
  else contains keyword name_lower.

Definition is_nonempty (s : string) : bool :=
  match s with EmptyString => false | _ => true end.

Definition _is_relevant_business (business_name industry : string) : bool :=
  if negb (is_nonempty business_name) || negb (is_nonempty industry) then true
  else
    let name_lower := lower business_name in
    let industry_lower := lower industry in
    if existsb (fun k => is_nonempty k && contains k name_lower)
               (exclusion_keywords industry_lower) then false
    else
      let relevant_keywords := industry_keywords industry_lower in
      match relevant_keywords with
      | [] => true
      | _ =>
        if existsb (keyword_hit 2 name_lower) relevant_keywords then true
        else if String.eqb industry_lower "hvac" then
          existsb (keyword_hit 3 name_lower) hvac_patterns
        else false
      end.

End Relevance.

(* ------------------------------------------------------------------ *)
(** ** Analytics engine: HHI and business density *)
Module Analytics.
Import PyStr.
Local Open Scope Q_scope.

(** The fields of a business dict that the analytics calculators read;
    [None] is a missing key. *)
Record Business := mkBusiness {
  b_name : option string;
  b_estimated_revenue : option Q;
  b_reviews : option Q;
  b_review_count : option Q;
  b_rating : option Q
}.

(** [d.get(key, default)]. *)
Definition get_q (o : option Q) (d : Q) : Q :=
  match o with Some x => x | None => d end.

(** Python [x or y] on numbers: [x] unless it is zero (falsy). *)
Definition q_or (x y : Q) : Q := if Qeq_bool x 0 then y else x.

Definition Qltb (x y : Q) : bool := negb (Qle_bool y x).

Definition Qsum (l : list Q) : Q := fold_right Qplus 0 l.

Definition len_q {A} (l : list A) : Q := inject_Z (Z.of_nat (List.length l)).

(** [revenue] proxy: the loop keeps only strictly positive
    [estimated_revenue] values (missing counts as 0). *)
Definition revenue_of (b : Business) : Q := get_q (b_estimated_revenue b) 0.

Fixpoint revenue_shares (bs : list Business) : list Q :=
  match bs with
  | [] => []
  | b :: rest =>
    if Qltb 0 (revenue_of b) then revenue_of b :: revenue_shares rest
    else revenue_shares rest
  end.

(** [reviews_weighted] proxy:
    [reviews = b.get('reviews', 0) or b.get('review_count', 0)],
    [rating = b.get('rating', 4.0) or 4.0], share [reviews * (rating / 5)]. *)
Definition weighted_share (b : Business) : Q :=
  let reviews := q_or (get_q (b_reviews b) 0) (get_q (b_review_count b) 0) in
  let rating := q_or (get_q (b_rating b) 4) 4 in
  reviews * (rating / 5).

(** [chain_independent] proxy: 100 for a known chain, 10 otherwise. *)
Definition common_chains : list string :=
  ["mcdonalds"; "subway"; "starbucks"; "pizza hut"; "dominos"; "taco bell";
   "kfc"; "burger king"].

Definition chain_value (b : Business) : Q :=
  let name := lower (match b_name b with Some s => s | None => EmptyString end) in
  if existsb (fun chain => contains chain name) common_chains then 100 else 10.

(** [(market_shares, total_market_value)] after the proxy branch; the
    Python loops add to [total_market_value] exactly the values they append
    to [market_shares]. *)
Definition shares_and_total (proxy : string) (bs : list Business) : list Q * Q :=
  if String.eqb proxy "revenue" then
    let s := revenue_shares bs in (s, Qsum s)
  else if String.eqb proxy "reviews_weighted" then
    let s := map weighted_share bs in (s, Qsum s)
  else if String.eqb proxy "chain_independent" then
    let s := map chain_value bs in (s, Qsum s)
  else
    (* default: equal market shares, total 1.0 *)
    (repeat (1 / len_q bs) (List.length bs), 1).

(** [market_share_percentages]. *)
Definition share_percentages (bs : list Business) (st : list Q * Q) : list Q :=
  let (shares, total) := st in
  if Qltb 0 total then map (fun s => s / total) shares
  else repeat (1 / len_q bs) (List.length bs).

Definition concentration_level (h : Q) : string :=
  if Qltb h 1500 then "Unconcentrated"
  else if Qltb h 2500 then "Moderately Concentrated"
  else "Highly Concentrated".

Definition fragmentation_of (h : Q) : string :=
  if Qltb h 1500 then "Highly Fragmented"
  else if Qltb h 2500 then "Moderately Fragmented"
  else "Consolidated".

Definition rollup_of (h : Q) : string :=
  if Qltb h 1000 then "Excellent"
  else if Qltb h 1800 then "Good"
  else if Qltb h 2500 then "Moderate"
  else "Limited".

Definition antitrust_concern_of (h : Q) : string :=
  if Qltb h 1500 then "Low"
  else if Qltb h 2500 then "Medium"
  else "High".

(** [max(xs) if xs else 0]: an item replaces the current maximum only when
    it is larger. *)
Definition py_max_list (xs : list Q) : Q :=
  match xs with
  | [] => 0
  | x :: rest => fold_left (fun m y => if Qltb m y then y else m) rest x
  end.

(** [sorted(xs, reverse=True)]: a stable sort into non-increasing order
    (each item goes after the items not smaller than it). *)
Fixpoint insert_desc (x : Q) (ys : list Q) : list Q :=
  match ys with
  | [] => [x]
  | y :: ys' => if Qltb y x then x :: ys else y :: insert_desc x ys'
  end.

Definition sorted_desc (xs : list Q) : list Q :=
  fold_left (fun acc x => insert_desc x acc) xs [].

(** The result dict; [None] is a key the dict does not hold. *)
Record HHIResult := mkHHI {
  hhi_score : Q;
  hhi_normalized : option Q;
  market_concentration : string;
  fragmentation_level : option string;
  antitrust_concern : option string;
  rollup_opportunity : option string;
  market_share_proxy : option string;
  total_businesses : option nat;
  largest_market_share : option Q;
  top_3_market_share : option Q;
  doj_methodology : option bool
}.

Definition calculate_hhi_index (businesses : list Business)
    (market_share_proxy : string) : HHIResult :=
  match businesses with
  | [] => mkHHI 0 None "No Data" None None None None None None None None
  | _ =>
    let pcts := share_percentages businesses
                  (shares_and_total market_share_proxy businesses) in
    let hhi := Qsum (map (fun s => s * s) pcts) in
    let hhi_traditional := hhi * 10000 in
    mkHHI hhi_traditional (Some hhi) (concentration_level hhi_traditional)
          (Some (fragmentation_of hhi_traditional))
          (Some (antitrust_concern_of hhi_traditional))
          (Some (rollup_of hhi_traditional))
          (Some market_share_proxy) (Some (List.length businesses))
          (Some (py_max_list pcts))
          (Some (Qsum (firstn 3 (sorted_desc pcts))))
          (Some true)
  end.

(** The market-share value a proxy gives one business (the default branch
    gives every business the same value). *)
Definition proxy_value (proxy : string) (b : Business) : Q :=
  if String.eqb proxy "revenue" then revenue_of b
  else if String.eqb proxy "reviews_weighted" then weighted_share b
  else if String.eqb proxy "chain_independent" then chain_value b
  else 1.

(** Well-formed business: review counts and rating are not negative. *)
Definition wf_business (b : Business) : Prop :=
  0 <= get_q (b_reviews b) 0 /\ 0 <= get_q (b_review_count b) 0 /\
  0 <= get_q (b_rating b) 4.

End Analytics.

(* ------------------------------------------------------------------ *)
(** ** Business density and the census lookup (stateful)

    The service object keeps a [population_cache] dict across calls, and the
    estimate for an unknown location draws from Python's [random] module.
    Both are explicit state here: the cache as an association list keyed by
    the lower-cased location, the random generator as a stream of draws in
    [0, 1) with a read position. *)
Module Density.
Import PyStr Analytics.
Local Open Scope Q_scope.

Record CensusData := mkCensus {
  population : Q;
  total_households : Q
}.

Record State := mkState {
  population_cache : list (string * CensusData);
  rng : nat -> Q;
  rng_pos : nat
}.

Fixpoint lookup (k : string) (m : list (string * CensusData)) : option CensusData :=
  match m with
  | [] => None
  | (k', v) :: m' => if String.eqb k k' then Some v else lookup k m'
  end.

(** [metro_census_data] (population, households; the income and age
    columns are not read by the density calculator). *)
Definition metro_census_data : list (string * CensusData) :=
  [("san francisco", mkCensus 884279 378438);
   ("los angeles", mkCensus 3971883 1395778);
   ("new york", mkCensus 8230290 3147295);
   ("chicago", mkCensus 2665039 1045560);
   ("houston", mkCensus 2302878 841381);
   ("phoenix", mkCensus 1650070 590151);
   ("philadelphia", mkCensus 1567442 603953);
   ("san antonio", mkCensus 1472909 517966);
   ("san diego", mkCensus 1381162 518610);
   ("dallas", mkCensus 1299544 514573)].

(** One draw from the generator. *)
Definition draw (st : State) : Q * State :=
  (rng st (rng_pos st),
   mkState (population_cache st) (rng st) (S (rng_pos st))).

Definition randint (lo hi : Z) (u : Q) : Q :=
  inject_Z (lo + Qfloor (u * inject_Z (hi - lo + 1))).

Definition uniform (a b u : Q) : Q := a + (b - a) * u.

(** [_generate_realistic_census_estimate]: four draws (population, people
    per household, income, age); [int(...)] truncates the positive
    quotient. *)
Definition _generate_realistic_census_estimate (st : State) : CensusData * State :=
  let (u1, st1) := draw st in
  let (u2, st2) := draw st1 in
  let (_, st3) := draw st2 in
  let (_, st4) := draw st3 in
  let base_population := randint 75000 450000 u1 in
  let people_per_household := uniform (22 # 10) (28 # 10) u2 in
  let households := inject_Z (Qfloor (base_population / people_per_household)) in
  (mkCensus base_population households, st4).

Fixpoint partial_match (key : string) (m : list (string * CensusData))
    : option CensusData :=
  match m with
  | [] => None
  | (k, v) :: m' =>
    if contains k key || contains key k then Some v else partial_match key m'
  end.

Definition _get_realistic_census_data (location : string) (st : State)
    : CensusData * State :=
  let location_key := lower location in
  match lookup location_key metro_census_data with
  | Some d => (d, st)
  | None =>
    match partial_match location_key metro_census_data with
    | Some d => (d, st)
    | None => _generate_realistic_census_estimate st
    end
  end.

(** [_fetch_census_acs_data]: cache hit, or compute and cache. *)
Definition _fetch_census_acs_data (location : string) (st : State)
    : CensusData * State :=
  let key := lower location in
  match lookup key (population_cache st) with
  | Some d => (d, st)
  | None =>
    let (d, st') := _get_realistic_census_data location st in
    (d, mkState ((key, d) :: population_cache st') (rng st') (rng_pos st'))
  end.

(** The result dict. *)
Record DensityResult := mkDensity {
  business_density : Q;
  density_type : string;
  density_level : string;
  market_saturation : string;
  businesses_count : nat;
  population_base : Q;
  location : string;
  industry : string;
  census_data_source : string
}.

Definition density_level_of (d : Q) : string :=
  if Qltb (1 # 100) d then "Very High"
  else if Qltb (5 # 1000) d then "High"
  else if Qltb (2 # 1000) d then "Moderate"
  else if Qltb (1 # 1000) d then "Low"
  else "Very Low".

Definition market_saturation_of (d : Q) : string :=
  if Qltb (1 # 100) d then "Oversaturated"
  else if Qltb (5 # 1000) d then "Saturated"
  else if Qltb (2 # 1000) d then "Competitive"
  else if Qltb (1 # 1000) d then "Opportunity"
  else "Underserved".

Definition calculate_business_density (businesses_count : nat)
    (location industry : string) (use_households : bool) (st : State)
    : DensityResult * State :=
  let (census_data, st') := _fetch_census_acs_data location st in
  let denominator :=
    if use_households then total_households census_data
    else population census_data in
  let density_type :=
    if use_households then "businesses_per_household" else "businesses_per_capita" in
  let density :=
    if Qltb 0 denominator then inject_Z (Z.of_nat businesses_count) / denominator
    else 0 in
  (mkDensity density density_type (density_level_of density)
             (market_saturation_of density) businesses_count denominator
             location industry "US Census ACS", st').

End Density.

(* ------------------------------------------------------------------ *)
(** ** Revenue estimator: [calculate_revenue_estimate] *)
Module Revenue.
Import PyStr.
Local Open Scope R_scope.

(** [self.industry_coefficients]: (alpha, beta) per industry key. *)
Definition industry_coefficients : list (string * (Z * Z)) :=
  [("restaurant", (12000, 1200)%Z); ("dental", (18000, 1800)%Z);
   ("auto-repair", (8000, 800)%Z); ("salon", (6000, 600)%Z);
   ("fitness", (15000, 1500)%Z); ("legal", (25000, 2500)%Z);
   ("medical", (22000, 2200)%Z); ("retail", (7000, 700)%Z);
   ("hvac", (14000, 1400)%Z); ("plumbing", (13000, 1300)%Z);
   ("consulting", (20000, 2000)%Z); ("accounting", (16000, 1600)%Z);
   ("real-estate", (19000, 1900)%Z); ("catering", (10000, 1000)%Z);
   ("general", (12000, 1200)%Z)].

Definition general_coefficients : Z * Z := (12000, 1200)%Z.

Fixpoint lookup_coeff (k : string) (m : list (string * (Z * Z))) : option (Z * Z) :=
  match m with
  | [] => None
  | (k', v) :: m' => if String.eqb k k' then Some v else lookup_coeff k m'
  end.

(** [s.replace(' ', '-')]. *)
Fixpoint replace_space (s : string) : string :=
  match s with
  | EmptyString => EmptyString
  | String c s' =>
    String (if Ascii.eqb c " "%char then "-"%char else c) (replace_space s')
  end.

Definition industry_key (industry : string) : string :=
  match industry with
  | EmptyString => "general"
  | _ => replace_space (lower industry)
  end.

Definition coefficients (industry : string) : Z * Z :=
  match lookup_coeff (industry_key industry) industry_coefficients with
  | Some c => c
  | None => general_coefficients
  end.

(** [additional_factors]: the keys the estimator reads, and how many other
    keys the dict holds ([len(additional_factors)] feeds the confidence). *)
Record AdditionalFactors := mkFactors {
  af_rating : option R;
  af_years_in_business : option R;
  af_location_premium : option R;
  af_other_keys : nat
}.

Definition af_len (a : AdditionalFactors) : nat :=
  (match af_rating a with Some _ => 1 | None => 0 end +
   match af_years_in_business a with Some _ => 1 | None => 0 end +
   match af_location_premium a with Some _ => 1 | None => 0 end +
   af_other_keys a)%nat.

Definition rating_factor (rating : R) : R :=
  if Rle_dec (45 / 10) rating then 12 / 10
  else if Rle_dec 4 rating then 1
  else if Rle_dec (35 / 10) rating then 8 / 10
  else 6 / 10.

Definition years_factor (years : R) : R :=
  if Rle_dec 15 years then 115 / 100
  else if Rle_dec 5 years then 1
  else 9 / 10.

Definition adjustment_factor (additional_factors : option AdditionalFactors) : R :=
  match additional_factors with
  | None => 1
  | Some a =>
    1 * match af_rating a with Some r => rating_factor r | None => 1 end
      * match af_years_in_business a with Some y => years_factor y | None => 1 end
      * match af_location_premium a with Some p => p | None => 1 end
  end.

(** [math.log(1 + n) if n >= 0 else 0]. *)
Definition log1p_guarded (n : Z) : R :=
  if (0 <=? n)%Z then ln (1 + IZR n) else 0.

Definition minimum_revenue : R := 150000.

(** The result dict: the estimate, its range and confidence, the
    ['formula_components'] entries ([fc_]) and the ['data_sources'] entries
    ([ds_]) echoing the inputs; [additional_factors or {}] is [None] read as
    the empty dict. *)
Record RevenueResult := mkRevenue {
  revenue_estimate : R;
  revenue_range_low : R;
  revenue_range_high : R;
  confidence_score : R;
  fc_alpha_coefficient : Z;
  fc_beta_coefficient : Z;
  fc_log_reviews : R;
  fc_log_pictures : R;
  fc_base_calculation : R;
  fc_adjustment_factor : R;
  ds_review_count : Z;
  ds_picture_count : Z;
  ds_industry : string;
  ds_additional_factors : AdditionalFactors;
  methodology : string
}.

Definition empty_factors : AdditionalFactors := mkFactors None None None 0.

Definition factors_or_empty (a : option AdditionalFactors) : AdditionalFactors :=
  match a with Some x => x | None => empty_factors end.

Definition calculate_revenue_estimate (business_name : string)
    (review_count picture_count : Z) (industry : string)
    (additional_factors : option AdditionalFactors) : RevenueResult :=
  let (alpha, beta) := coefficients industry in
  let log_reviews := log1p_guarded review_count in
  let log_pictures := log1p_guarded picture_count in
  let base_revenue_estimate := IZR alpha * log_reviews + IZR beta * log_pictures in
  let revenue_estimate := base_revenue_estimate * adjustment_factor additional_factors in
  let final_revenue_estimate := Rmax revenue_estimate minimum_revenue in
  let c1 := 7 / 10 + (if (50 <=? review_count)%Z then 1 / 10 else 0)
            + (if (10 <=? picture_count)%Z then 1 / 10 else 0)
            + match additional_factors with
              | Some a => if (2 <=? af_len a)%nat then 1 / 10 else 0
              | None => 0
              end in
  mkRevenue final_revenue_estimate (final_revenue_estimate * (75 / 100))
            (final_revenue_estimate * (125 / 100)) (Rmin c1 (95 / 100))
            alpha beta log_reviews log_pictures base_revenue_estimate
            (adjustment_factor additional_factors)
            review_count picture_count industry
            (factors_or_empty additional_factors)
            "Log-scaled revenue per review/picture with industry coefficients".

End Revenue.

(* ------------------------------------------------------------------ *)
(** ** Deduplicator / merger: [aggregate_business_data]

    Records hold the keys the merger reads or writes; [None] is a missing
    key. Python sets are modelled as duplicate-free lists in insertion
    order ([set.update] appends the new elements), and [list(s)] by the
    run's [set_list] below. [base_business.copy()] is shallow, so the merger also writes into
    the base record's own [contact] and [metrics] dicts; within a group the
    base record is only read again through that same dict, so the merged
    values computed here are those of the Python run. The [KeyError] raised
    by [biz_metrics['rating']] (or ['review_count']) when the key is missing
    but its default 0 beats the merged value is the [None] result. *)
Module Dedup.
Import PyStr.
Local Open Scope Q_scope.
Local Open Scope list_scope.

Record Contact := mkContact {
  website : option string;
  phone : option string;
  email : option string;
  website_valid : option bool;
  phone_valid : option bool;
  email_valid : option bool
}.

Definition empty_contact : Contact := mkContact None None None None None None.

Record Metrics := mkMetrics {
  rating : option Q;
  review_count : option Q
}.

Definition empty_metrics : Metrics := mkMetrics None None.

Record Biz := mkBiz {
  name : option string;
  contact : option Contact;
  metrics : option Metrics;
  data_sources : option (list string);
  source_count : option nat;
  tags : option (list string)
}.

Definition get_str (o : option string) : string :=
  match o with Some s => s | None => EmptyString end.

Definition get_list (o : option (list string)) : list string :=
  match o with Some l => l | None => [] end.

Definition get_q (o : option Q) : Q := match o with Some x => x | None => 0 end.

(** Truthiness of an optional string value. *)
Definition truthy (o : option string) : bool :=
  match o with Some (String _ _) => true | _ => false end.

(** The grouping key:
    [re.sub(r'\s+', ' ', re.sub(r'[^\w\s]', '', name.lower()).strip())]. *)
Fixpoint remove_punct (s : string) : string :=
  match s with
  | EmptyString => EmptyString
  | String c s' =>
    if is_word_char c || is_space c then String c (remove_punct s')
    else remove_punct s'
  end.

Fixpoint collapse_ws (in_run : bool) (s : string) : string :=
  match s with
  | EmptyString => EmptyString
  | String c s' =>
    if is_space c then
      if in_run then collapse_ws true s' else String " " (collapse_ws true s')
    else String c (collapse_ws false s')
  end.

Definition normalize_name (name : string) : string :=
  collapse_ws false (strip (remove_punct (lower name))).

(** [name = business.get('name', '').strip()]. *)
Definition stripped_name (b : Biz) : string := strip (get_str (name b)).

Definition has_name (b : Biz) : bool :=
  match stripped_name b with EmptyString => false | _ => true end.

Definition biz_key (b : Biz) : string := normalize_name (stripped_name b).

(** [business_groups]: a dict from key to the list of records, in first
    insertion order. *)
Fixpoint add_to_group (k : string) (b : Biz) (groups : list (string * list Biz))
    : list (string * list Biz) :=
  match groups with
  | [] => [(k, [b])]
  | (k', g) :: rest =>
    if String.eqb k' k then (k', g ++ [b]) :: rest
    else (k', g) :: add_to_group k b rest
  end.

Definition group_step (groups : list (string * list Biz)) (b : Biz)
    : list (string * list Biz) :=
  if has_name b then add_to_group (biz_key b) b groups else groups.

Definition group_businesses (bs : list Biz) : list (string * list Biz) :=
  fold_left group_step bs [].

(** The [max(..., key=...)] key and Python's tuple [>]. *)
Definition contact_of (b : Biz) : Contact :=
  match contact b with Some c => c | None => empty_contact end.

Definition metrics_of (b : Biz) : Metrics :=
  match metrics b with Some m => m | None => empty_metrics end.

Definition base_key (b : Biz) : nat * nat * nat * Q :=
  (String.length (get_str (website (contact_of b))),
   String.length (get_str (phone (contact_of b))),
   String.length (get_str (email (contact_of b))),
   get_q (review_count (metrics_of b))).

Definition Qltb (x y : Q) : bool := negb (Qle_bool y x).

Definition key_gt (a b : nat * nat * nat * Q) : bool :=
  let '(a1, a2, a3, a4) := a in
  let '(b1, b2, b3, b4) := b in
  (b1 <? a1)%nat || ((a1 =? b1)%nat &&
  ((b2 <? a2)%nat || ((a2 =? b2)%nat &&
  ((b3 <? a3)%nat || ((a3 =? b3)%nat && Qltb b4 a4))))).

(** [max(group, key=...)]: the first element with a maximal key (an item
    replaces the current maximum only when its key is strictly greater). *)
Definition select_base (g : list Biz) : option Biz :=
  match g with
  | [] => None
  | b :: rest =>
    Some (fold_left (fun best x =>
            if key_gt (base_key x) (base_key best) then x else best) rest b)
  end.

(** Fill-if-empty contact merge for one group member. *)
Definition merge_contact (c bc : Contact) : Contact :=
  let c1 :=
    if negb (truthy (website c)) && truthy (website bc) then
      mkContact (website bc) (phone c) (email c)
                (Some (match website_valid bc with Some v => v | None => false end))
                (phone_valid c) (email_valid c)
    else c in
  let c2 :=
    if negb (truthy (phone c1)) && truthy (phone bc) then
      mkContact (website c1) (phone bc) (email c1) (website_valid c1)
                (Some (match phone_valid bc with Some v => v | None => false end))
                (email_valid c1)
    else c1 in
  if negb (truthy (email c2)) && truthy (email bc) then
    mkContact (website c2) (phone c2) (email bc) (website_valid c2)
              (phone_valid c2)
              (Some (match email_valid bc with Some v => v | None => false end))
  else c2.

(** Best metrics: [if biz.get(k, 0) > merged.get(k, 0): merged[k] = biz[k]]. *)
Definition merge_metrics (m bm : Metrics) : option Metrics :=
  let m1 :=
    if Qltb (get_q (rating m)) (get_q (rating bm)) then
      match rating bm with
      | Some r => Some (mkMetrics (Some r) (review_count m))
      | None => None
      end
    else Some m in
  match m1 with
  | None => None
  | Some m1 =>
    if Qltb (get_q (review_count m1)) (get_q (review_count bm)) then
      match review_count bm with
      | Some r => Some (mkMetrics (rating m1) (Some r))
      | None => None
      end
    else Some m1
  end.

(** [s.update(xs)] on an insertion-ordered set. *)
Definition set_add (s : list string) (x : string) : list string :=
  if existsb (String.eqb x) s then s else s ++ [x].

Definition set_update (s xs : list string) : list string := fold_left set_add xs s.

(** The loop state: merged record, [all_sources], [all_tags].
    [base_business.copy()] is shallow, so the merged record shares its
    [contact] and [metrics] dicts with the base record, and the base is read
    with the merged values when the loop reaches it.  Fields are only ever
    filled or raised, so the base's own values never pass the tests there,
    and reading them as given here yields the same result. *)
Definition merge_step (st : option (Biz * list string * list string)) (biz : Biz)
    : option (Biz * list string * list string) :=
  match st with
  | None => None
  | Some (merged, all_sources, all_tags) =>
    let c := merge_contact (contact_of merged) (contact_of biz) in
    match merge_metrics (metrics_of merged) (metrics_of biz) with
    | None => None
    | Some m =>
      Some (mkBiz (name merged) (Some c) (Some m) (data_sources merged)
                  (source_count merged) (tags merged),
            set_update all_sources (get_list (data_sources biz)),
            set_update all_tags (get_list (tags biz)))
    end
  end.

Definition aggregated_tag : string := "multi_source_aggregated".

(** [list(s)] for a set of strings.  CPython lists a set in the order of
    its hash table, which is fixed by the string hashes (seeded once per
    process) and by the order in which the elements were first inserted.
    [set_list] gives that order for a run, as a function of the
    insertion-ordered element list; [set_order] is what every such order
    satisfies: it lists exactly the set's elements, once each. *)
Definition set_order (set_list : list string -> list string) : Prop :=
  forall l, NoDup l -> Permutation (set_list l) l.

Definition merge_group (set_list : list string -> list string) (g : list Biz)
    : option Biz :=
  match select_base g with
  | None => None
  | Some base =>
    match fold_left merge_step g (Some (base, [], [])) with
    | None => None
    | Some (merged, all_sources, all_tags) =>
      Some (mkBiz (name merged) (contact merged) (metrics merged)
                  (Some (set_list all_sources)) (Some (List.length all_sources))
                  (Some (set_list all_tags ++ [aggregated_tag])))
    end
  end.

Fixpoint merge_all (set_list : list string -> list string)
    (groups : list (string * list Biz)) : option (list Biz) :=
  match groups with
  | [] => Some []
  | (_, g) :: rest =>
    match g with
    | [] => merge_all set_list rest
    | _ =>
      match merge_group set_list g, merge_all set_list rest with
      | Some m, Some ms => Some (m :: ms)
      | _, _ => None
      end
    end
  end.

Definition aggregate_business_data (set_list : list string -> list string)
    (businesses : list Biz) : option (list Biz) :=
  match businesses with
  | [] => Some []
  | _ => merge_all set_list (group_businesses businesses)
  end.

End Dedup.

(* ------------------------------------------------------------------ *)
(** ** Industry names: [_map_to_industry_name]
    (backend/app/routers/intelligence.py) *)
Module IndustryMap.
Import PyStr Relevance.
Local Open Scope nat_scope.

(** [str.upper] on ASCII characters. *)
Definition upper_char (c : ascii) : ascii :=
  let n := nat_of_ascii c in
  if (97 <=? n) && (n <=? 122) then ascii_of_nat (n - 32) else c.

Fixpoint upper (s : string) : string :=
  match s with
  | EmptyString => EmptyString
  | String c s' => String (upper_char c) (upper s')
  end.

(** [s.replace(' ', '_')]. *)
Fixpoint replace_space_underscore (s : string) : string :=
  match s with
  | EmptyString => EmptyString
  | String c s' =>
    String (if Ascii.eqb c " "%char then "_"%char else c)
           (replace_space_underscore s')
  end.

(** The [industry_mapping] dict, in its literal order. *)
Definition industry_mapping : list (string * list string) :=
  [("hvac", ["HVAC"]); ("heating", ["HVAC"]); ("cooling", ["HVAC"]);
   ("air_conditioning", ["HVAC"]); ("plumber", ["Plumbing"]);
   ("plumbing", ["Plumbing"]); ("electrician", ["Electrical"]);
   ("electrical", ["Electrical"]); ("general_contractor", ["Construction"]);
   ("contractor", ["Construction"]); ("construction", ["Construction"]);
   ("hardware_store", ["Hardware Retail"]);
   ("home_goods_store", ["Home Improvement"]);
   ("home_improvement", ["Home Improvement"]);
   ("handyman", ["Handyman Services"]); ("tool_rental", ["Tool Rental"]);
   ("equipment_rental", ["Tool Rental"]); ("landscaping", ["Landscaping"]);
   ("lawn_care", ["Lawn & Garden"]); ("garden_center", ["Lawn & Garden"]);
   ("nursery", ["Lawn & Garden"]); ("car_repair", ["Automotive"]);
   ("auto_repair", ["Automotive"]); ("automotive", ["Automotive"]);
   ("gas_station", ["Automotive"]); ("restaurant", ["Restaurant"]);
   ("food", ["Restaurant"]); ("meal_takeaway", ["Restaurant"]);
   ("meal_delivery", ["Restaurant"]); ("cafe", ["Restaurant"]);
   ("store", ["Retail"]); ("shopping_mall", ["Retail"]);
   ("clothing_store", ["Retail"]); ("hospital", ["Healthcare"]);
   ("doctor", ["Healthcare"]); ("dentist", ["Healthcare"]);
   ("pharmacy", ["Healthcare"]); ("real_estate_agency", ["Real Estate"]);
   ("accounting", ["Accounting Firms"]);
   ("lawyer", ["Professional Services"]);
   ("insurance_agency", ["Professional Services"]);
   ("it_services", ["IT Services"]); ("security", ["Security Guards"]);
   ("transportation", ["Transportation"]); ("education", ["Education"]);
   ("entertainment", ["Entertainment"]); ("manufacturing", ["Manufacturing"])].

Fixpoint lookup_mapping (k : string) (m : list (string * list string))
    : option (list string) :=
  match m with
  | [] => None
  | (k', v) :: m' => if String.eqb k k' then Some v else lookup_mapping k m'
  end.

Definition mem (x : string) (l : list string) : bool := existsb (String.eqb x) l.

Definition hvac_indicators : list string :=
  ["plumber"; "general_contractor"; "contractor"; "heating"; "cooling"; "hvac"].

Definition standard_industries : list string :=
  ["Home Improvement"; "Hardware Retail"; "Handyman Services"; "Tool Rental";
   "Lawn & Garden"; "HVAC"; "Plumbing"; "Electrical"; "Landscaping";
   "Construction"; "Restaurant"; "Retail"; "Healthcare"; "Automotive";
   "Manufacturing"; "IT Services"; "Real Estate"; "Education";
   "Entertainment"; "Transportation"; "Accounting Firms"; "Security Guards";
   "Fire and Safety"].

(** [all_types]: the lower-cased Google types, then the Yelp categories
    lower-cased with spaces turned into underscores.  A [None] argument and
    an empty list are both falsy and contribute nothing. *)
Definition all_types (google_types yelp_categories : list string) : list string :=
  map lower google_types ++
  map (fun c => replace_space_underscore (lower c)) yelp_categories.

(** The first type that is a key of the table, with its industries. *)
Fixpoint first_mapped (types : list string) : option (list string) :=
  match types with
  | [] => None
  | t :: ts =>
    match lookup_mapping t industry_mapping with
    | Some v => Some v
    | None => first_mapped ts
    end
  end.

(** The direct-match loop: some type maps to a list holding the request. *)
Definition direct_match (requested : string) (types : list string) : bool :=
  existsb (fun t => match lookup_mapping t industry_mapping with
                    | Some v => mem requested v
                    | None => false
                    end) types.

(** [requested_industry] is [None] or a string; both [None] and the empty
    string are falsy, so the empty string stands for both. Every table value
    is a one-element list, so [[0]] never fails. *)
Definition _map_to_industry_name (google_types yelp_categories : list string)
    (requested_industry : string) : string :=
  let types := all_types google_types yelp_categories in
  let fallback :=
    match first_mapped types with
    | Some v => hd EmptyString v
    | None => if is_nonempty requested_industry then requested_industry
              else "General Business"
    end in
  if is_nonempty requested_industry then
    if String.eqb (upper requested_industry) "HVAC" &&
       existsb (fun ind => mem ind types) hvac_indicators then "HVAC"
    else if direct_match requested_industry types then requested_industry
    else if mem requested_industry standard_industries then requested_industry
    else fallback
  else fallback.

(** Every industry name the table can produce. *)
Definition mapping_values_all : list string := flat_map snd industry_mapping.

End IndustryMap.

(* ------------------------------------------------------------------ *)
(** ** The relevance filter of backend/app/routers/intelligence.py

    The same keyword table and keyword test as the working router's
    filter, but no exclusion list and no extra HVAC patterns. *)
Module IntelRelevance.
Import PyStr Relevance.

Definition _is_relevant_business (business_name industry : string) : bool :=
  if negb (is_nonempty business_name) || negb (is_nonempty industry) then true
  else
    let name_lower := lower business_name in
    let industry_lower := lower industry in
    match industry_keywords industry_lower with
    | [] => true
    | keywords => existsb (keyword_hit 2 name_lower) keywords
    end.

End IntelRelevance.

(* ------------------------------------------------------------------ *)
(** ** Lead enrichment: [enrich_business_data]
    (backend/app/routers/intelligence.py)

    The fields of a business dict the enrichment reads or writes; [None] is a
    missing key.  Ratings are floats ([Q]), review counts ints ([Z]).  The
    e-mail scraper [extract_email_from_website] fetches a web page, so its
    answer for each URL is an argument. *)
Module Enrich.
Import PyStr Relevance.
Local Open Scope Q_scope.

Record EContact := mkEContact {
  e_website : option string;
  e_email : option string;
  e_email_valid : option bool
}.

Record EMetrics := mkEMetrics {
  em_rating : option Q;
  em_review_count : option Z;
  em_estimated_revenue : option Z;
  em_min_revenue : option Z;
  em_max_revenue : option Z;
  em_lead_score : option Z;
  em_owner_age : option Z;
  em_years_in_business : option Z;
  em_employee_count : option Z;
  em_num_locations : option Z
}.

Record EBiz := mkEBiz {
  e_name : option string;
  e_contact : option EContact;
  e_metrics : option EMetrics
}.

Definition empty_econtact : EContact := mkEContact None None None.

Definition get_str (o : option string) : string :=
  match o with Some s => s | None => EmptyString end.

Definition truthy (o : option string) : bool := is_nonempty (get_str o).

(** Python's [int(x)] on a float: truncation toward zero. *)
Definition py_int (q : Q) : Z := if Qle_bool 0 q then Qfloor q else Qceiling q.

(** Python's [max(a, b)] and [min(a, b)] on numbers. *)
Definition py_max (a b : Q) : Q := if negb (Qle_bool b a) then b else a.
Definition py_min (a b : Q) : Q := if negb (Qle_bool a b) then b else a.

(** The e-mail step: only when there is a website and no e-mail yet, and
    only a non-empty scraped address is stored. *)
Definition enrich_email (extract_email : string -> option string) (b : EBiz) : EBiz :=
  let c := match e_contact b with Some c => c | None => empty_econtact end in
  let website := get_str (e_website c) in
  if is_nonempty website && negb (truthy (e_email c)) then
    match extract_email website with
    | Some e =>
      if is_nonempty e then
        mkEBiz (e_name b) (Some (mkEContact (e_website c) (Some e) (Some true)))
               (e_metrics b)
      else b
    | None => b
    end
  else b.

Definition estimated_revenue_of (rating : Q) (review_count : Z) : Z :=
  let base_revenue := 250000 in
  let rating_multiplier := py_max 1 (rating / 5) in
  let review_multiplier := py_min 3 (1 + inject_Z review_count / 100) in
  py_int (base_revenue * rating_multiplier * review_multiplier).

(** [business.get('metrics', {}).get('rating', 0)] and the same for
    [review_count]. *)
Definition rating_of (m : EMetrics) : Q :=
  match em_rating m with Some r => r | None => 0 end.
Definition review_count_of (m : EMetrics) : Z :=
  match em_review_count m with Some n => n | None => 0%Z end.

(** The metrics step on an existing metrics dict. *)
Definition enrich_metrics (m : EMetrics) : EMetrics :=
  let rating := rating_of m in
  let review_count := review_count_of m in
  let estimated_revenue := estimated_revenue_of rating review_count in
  let lead_score :=
    Z.min 100 (Z.max 20 (py_int (rating * 15 + inject_Z (Z.min review_count 50)))) in
  let owner_age := (35 + py_int (inject_Z (review_count mod 20) + rating * 3))%Z in
  let years := Z.max 2 (Z.min 20 (py_int (inject_Z review_count / 10 + rating))) in
  let employees := Z.max 3 (Z.min 25 (py_int (inject_Z estimated_revenue / 80000))) in
  let locations := if (review_count <? 100)%Z then 1%Z else 2%Z in
  mkEMetrics (em_rating m) (em_review_count m) (Some estimated_revenue)
             (Some (py_int (inject_Z estimated_revenue * (7 # 10))))
             (Some (py_int (inject_Z estimated_revenue * (15 # 10))))
             (Some lead_score) (Some owner_age) (Some years) (Some employees)
             (Some locations).

(** Without a metrics dict, [business['metrics'][...] = ...] raises
    [KeyError], which the [try] swallows: the record comes back as it is
    after the e-mail step. *)
Definition enrich_business_data (extract_email : string -> option string)
    (business : EBiz) : EBiz :=
  let b1 := enrich_email extract_email business in
  match e_metrics b1 with
  | None => b1
  | Some m => mkEBiz (e_name b1) (e_contact b1) (Some (enrich_metrics m))
  end.

End Enrich.

(* ------------------------------------------------------------------ *)
(** ** The working router's per-business helpers
    (backend/app/routers/intelligence_working_fixed.py) *)
Module FastScan.
Import PyStr Relevance Analytics.
Local Open Scope nat_scope.

(** [str.isspace] on ASCII, the separator set of [str.split()] and
    [str.strip()]: \t \n \v \f \r, the four separators 0x1c-0x1f, space. *)
Definition py_isspace (c : ascii) : bool :=
  let n := nat_of_ascii c in
  (n =? 32) || ((9 <=? n) && (n <=? 13)) || ((28 <=? n) && (n <=? 31)).

Fixpoint str_lstrip (s : string) : string :=
  match s with
  | String c s' => if py_isspace c then str_lstrip s' else s
  | EmptyString => EmptyString
  end.

Definition str_strip (s : string) : string :=
  rev_str (str_lstrip (rev_str (str_lstrip s) EmptyString)) EmptyString.

(** [s.split(sep)] for a one-character separator: always at least one
    piece, empty pieces kept. *)
Fixpoint split_on (sep : ascii) (s : string) : list string :=
  match s with
  | EmptyString => [EmptyString]
  | String c s' =>
    if Ascii.eqb c sep then EmptyString :: split_on sep s'
    else match split_on sep s' with
         | p :: ps => String c p :: ps
         | [] => [String c EmptyString]
         end
  end.

(** [s.split()]: the maximal runs of non-space characters; [cur] is the
    run read so far. *)
Fixpoint split_ws_from (cur : string) (s : string) : list string :=
  match s with
  | EmptyString => if is_nonempty cur then [cur] else []
  | String c s' =>
    if py_isspace c then
      if is_nonempty cur then cur :: split_ws_from EmptyString s'
      else split_ws_from EmptyString s'
    else split_ws_from (cur ++ String c EmptyString) s'
  end.

Definition split_ws (s : string) : list string := split_ws_from EmptyString s.

(** The nested [_parse_address]: (line1, city, state, zip_code). *)
Definition _parse_address (addr_text : string) : string * string * string * string :=
  if negb (is_nonempty addr_text) then (EmptyString, EmptyString, EmptyString, EmptyString)
  else
    let parts := split_on ","%char addr_text in
    if 3 <=? List.length parts then
      let line1 := str_strip (nth 0 parts EmptyString) in
      let city := str_strip (nth 1 parts EmptyString) in
      let state_zip := str_strip (nth 2 parts EmptyString) in
      let state_zip_parts := split_ws state_zip in
      if 2 <=? List.length state_zip_parts then
        (line1, city, nth 0 state_zip_parts EmptyString,
         nth 1 state_zip_parts EmptyString)
      else (line1, city, state_zip, EmptyString)
    else if List.length parts =? 2 then
      (str_strip (nth 0 parts EmptyString), str_strip (nth 1 parts EmptyString),
       EmptyString, EmptyString)
    else (addr_text, EmptyString, EmptyString, EmptyString).

(** The per-business [market_fragmentation] entry: the HHI of the one-element
    list [temp_business] under the revenue proxy.  The revenue estimate,
    computed over the reals by [calculate_revenue_estimate], enters as a
    rational. *)
Definition business_fragmentation (name : string) (base_revenue reviews rating : Q)
    : Q * option string * string * option string :=
  let temp_business :=
    [mkBusiness (Some name) (Some base_revenue) (Some reviews) None (Some rating)] in
  let h := calculate_hhi_index temp_business "revenue" in
  (hhi_score h, fragmentation_level h, market_concentration h, rollup_opportunity h).

End FastScan.

(* ------------------------------------------------------------------ *)
(** ** [comprehensive_market_analysis] and the HHI report's leading share
    (backend/app/services/mathematical_analytics_service.py) *)
Module MarketAnalysis.
Import PyStr Analytics Density.
Local Open Scope Q_scope.

(** One step of [max()]'s scan: an item replaces the current maximum only
    when it is larger. *)
Definition max_step (m x : Q) : Q := if Qltb m x then x else m.

(** [max(market_share_percentages) if market_share_percentages else 0]. *)
Definition largest_market_share (businesses : list Business) (proxy : string) : Q :=
  match share_percentages businesses (shares_and_total proxy businesses) with
  | [] => 0
  | p :: ps => fold_left max_step ps p
  end.

Definition opt_is (o : option string) (s : string) : bool :=
  match o with Some x => String.eqb x s | None => false end.

(** The market-opportunity rule; [.get] gives [None] for a missing key. *)
Definition market_opportunity (density_level rollup : option string) : string :=
  if opt_is density_level "Very Low" && opt_is rollup "Excellent" then "Exceptional"
  else if (opt_is density_level "Low" || opt_is density_level "Very Low") &&
          (opt_is rollup "Excellent" || opt_is rollup "Good") then "High"
  else if opt_is density_level "Moderate" &&
          (opt_is rollup "Good" || opt_is rollup "Moderate") then "Moderate"
  else "Limited".

Definition with_revenue (b : Business) (r : Q) : Business :=
  mkBusiness (b_name b) (Some r) (b_reviews b) (b_review_count b) (b_rating b).

(** The analysis pipeline: density for [len(businesses)], then the revenue
    HHI of the businesses with their estimated revenues stored, then the
    opportunity rule.  [estimate b] is [calculate_revenue_estimate(...)]
    ['revenue_estimate'] for [b] (computed over the reals by [Revenue]);
    the Python stores it into each input dict in place. *)
Definition comprehensive_market_analysis (estimate : Business -> Q)
    (businesses : list Business) (location industry : string) (st : State)
    : (string * DensityResult * HHIResult) * State :=
  let (density_analysis, st') :=
    calculate_business_density (List.length businesses) location industry false st in
  let businesses_with_revenue := map (fun b => with_revenue b (estimate b)) businesses in
  let hhi_analysis := calculate_hhi_index businesses_with_revenue "revenue" in
  ((market_opportunity (Some (density_level density_analysis))
                       (rollup_opportunity hhi_analysis),
    density_analysis, hhi_analysis), st').

End MarketAnalysis.

(* ================================================================== *)
(** * Theorems *)

(* ------------------------------------------------------------------ *)
(** ** HHI calculator *)
Module HHIFacts.
Import Analytics.
Local Open Scope Q_scope.

Ltac qlra := Lqa.lra.
Ltac qnra := Lqa.nra.

Lemma Qltb_iff (x y : Q) : Qltb x y = true <-> x < y.
Proof.
  unfold Qltb. rewrite negb_true_iff.
  split; intro H.
  - apply Qnot_le_lt. intro H'. apply Qle_bool_iff in H'. congruence.
  - destruct (Qle_bool y x) eqn:E; [|reflexivity].
    apply Qle_bool_iff in E. exfalso. apply (Qlt_not_le _ _ H E).
Qed.

Lemma Qltb_false (x y : Q) : Qltb x y = false <-> y <= x.
Proof.
  split; intro H.
  - apply Qnot_lt_le. intro H'. apply Qltb_iff in H'. congruence.
  - destruct (Qltb x y) eqn:E; [|reflexivity].
    apply Qltb_iff in E. exfalso. apply (Qlt_not_le _ _ E H).
Qed.

Lemma len_q_succ {A} (a : A) (l : list A) : len_q (a :: l) == len_q l + 1.
Proof.
  unfold len_q. simpl length. rewrite Nat2Z.inj_succ, <- Z.add_1_r.
  rewrite inject_Z_plus. reflexivity.
Qed.

Lemma len_q_nonneg {A} (l : list A) : 0 <= len_q l.
Proof.
  unfold len_q. change 0 with (inject_Z 0). rewrite <- Zle_Qle. lia.
Qed.

Lemma len_q_pos {A} (l : list A) : l <> [] -> 0 < len_q l.
Proof.
  intro H. destruct l as [|a l]; [congruence|].
  rewrite len_q_succ. pose proof (len_q_nonneg l). qlra.
Qed.

Lemma len_q_repeat {A} (a : A) n : len_q (repeat a n) = inject_Z (Z.of_nat n).
Proof. unfold len_q. rewrite repeat_length. reflexivity. Qed.

Lemma len_q_map {A B} (f : A -> B) l : len_q (map f l) = len_q l.
Proof. unfold len_q. rewrite length_map. reflexivity. Qed.

Lemma Qsum_cons a l : Qsum (a :: l) = a + Qsum l.
Proof. reflexivity. Qed.

Lemma Qsum_nonneg l : Forall (fun x => 0 <= x) l -> 0 <= Qsum l.
Proof.
  induction 1 as [|a l Ha Hl IH]; simpl; [qlra|]. qlra.
Qed.

(** Sum of squares of non-negative numbers is at most the square of the
    sum. *)
Lemma sumsq_le l :
  Forall (fun x => 0 <= x) l ->
  Qsum (map (fun s => s * s) l) <= Qsum l * Qsum l.
Proof.
  induction 1 as [|a l Ha Hl IH]; simpl; [qlra|].
  pose proof (Qsum_nonneg l Hl) as HS.
  assert (0 <= a * Qsum l) by (apply Qmult_le_0_compat; assumption).
  qnra.
Qed.

Lemma sumsq_nonneg l : 0 <= Qsum (map (fun s => s * s) l).
Proof.
  induction l as [|a l IH]; simpl; [qlra|].
  assert (0 <= a * a) by qnra. qlra.
Qed.

(** Elementwise-equal lists. *)
Lemma Qsum_const l c :
  Forall (fun x => x == c) l -> Qsum l == len_q l * c.
Proof.
  induction 1 as [|a l Ha Hl IH].
  - unfold len_q. simpl length. change (inject_Z (Z.of_nat 0)) with 0.
    simpl. ring.
  - rewrite Qsum_cons, len_q_succ, IH, Ha. ring.
Qed.

Lemma sumsq_const l c :
  Forall (fun x => x == c) l ->
  Qsum (map (fun s => s * s) l) == len_q l * (c * c).
Proof.
  induction 1 as [|a l Ha Hl IH].
  - unfold len_q. simpl length. change (inject_Z (Z.of_nat 0)) with 0.
    simpl. ring.
  - simpl map. rewrite Qsum_cons, len_q_succ, IH, Ha. ring.
Qed.

Lemma Forall_repeat_eq c n : Forall (fun x => x == c) (repeat c n).
Proof. induction n; simpl; constructor; [reflexivity | assumption]. Qed.

Lemma Qsum_map_div l t :
  ~ t == 0 -> Qsum (map (fun s => s / t) l) == Qsum l / t.
Proof.
  intro Ht. induction l as [|a l IH]; simpl.
  - field. assumption.
  - rewrite IH. field. assumption.
Qed.

Lemma Forall_div_nonneg l t :
  0 < t -> Forall (fun x => 0 <= x) l ->
  Forall (fun x => 0 <= x) (map (fun s => s / t) l).
Proof.
  intros Ht Hl. apply Forall_map. eapply Forall_impl; [|exact Hl].
  intros x Hx. cbv beta in Hx. apply Qle_shift_div_l; [assumption|]. qlra.
Qed.

(** The share percentages of a non-empty list are non-negative and sum to
    1 whenever the proxy values are non-negative. *)
Lemma percentages_distribution bs shares total :
  bs <> [] ->
  Forall (fun x => 0 <= x) shares -> total == Qsum shares ->
  let p := share_percentages bs (shares, total) in
  Forall (fun x => 0 <= x) p /\ Qsum p == 1.
Proof.
  intros Hne Hs Ht. simpl.
  pose proof (len_q_pos bs Hne) as Hn.
  destruct (Qltb 0 total) eqn:E.
  - apply Qltb_iff in E. split.
    + apply Forall_div_nonneg; assumption.
    + rewrite Qsum_map_div by qlra. rewrite <- Ht. field; intro Hc; qlra.
  - split.
    + apply Forall_forall. intros x Hx. apply repeat_spec in Hx. subst x.
      apply Qle_shift_div_l; [assumption|]. qlra.
    + rewrite Qsum_const with (c := 1 / len_q bs) by apply Forall_repeat_eq.
      unfold len_q at 1. rewrite repeat_length. fold (len_q bs). field; intro Hc; qlra.
Qed.

Lemma revenue_shares_pos bs : Forall (fun x => 0 <= x) (revenue_shares bs).
Proof.
  induction bs as [|b bs IH]; simpl; [constructor|].
  destruct (Qltb 0 (revenue_of b)) eqn:E; [|assumption].
  constructor; [|assumption]. apply Qltb_iff in E. qlra.
Qed.

Lemma q_or_nonneg x y : 0 <= x -> 0 <= y -> 0 <= q_or x y.
Proof. unfold q_or. destruct (Qeq_bool x 0); auto. Qed.

Lemma weighted_share_nonneg b : wf_business b -> 0 <= weighted_share b.
Proof.
  intros (H1 & H2 & H3). unfold weighted_share.
  apply Qmult_le_0_compat.
  - apply q_or_nonneg; assumption.
  - apply Qle_shift_div_l; [reflexivity|].
    assert (0 <= q_or (get_q (b_rating b) 4) 4) by (apply q_or_nonneg; [assumption | discriminate]).
    qlra.
Qed.

Lemma chain_value_pos b : 0 <= chain_value b.
Proof. unfold chain_value. destruct existsb; discriminate. Qed.

(** Under every proxy the collected values are non-negative for
    well-formed businesses and the running total is their sum. *)
Lemma shares_and_total_ok proxy bs :
  bs <> [] -> Forall wf_business bs ->
  let st := shares_and_total proxy bs in
  Forall (fun x => 0 <= x) (fst st) /\ snd st == Qsum (fst st).
Proof.
  intros Hne Hwf. unfold shares_and_total.
  destruct (String.eqb proxy "revenue");
    [split; [apply revenue_shares_pos | reflexivity]|].
  destruct (String.eqb proxy "reviews_weighted").
  { split; [|reflexivity]. apply Forall_map.
    eapply Forall_impl; [|exact Hwf]. apply weighted_share_nonneg. }
  destruct (String.eqb proxy "chain_independent").
  { split; [|reflexivity]. apply Forall_map, Forall_forall.
    intros; apply chain_value_pos. }
  pose proof (len_q_pos bs Hne) as Hn. simpl fst; simpl snd. split.
  - apply Forall_forall. intros x Hx. apply repeat_spec in Hx. subst x.
    apply Qle_shift_div_l; [assumption|]. qlra.
  - rewrite Qsum_const with (c := 1 / len_q bs) by apply Forall_repeat_eq.
    rewrite len_q_repeat. fold (len_q bs). field; intro Hc; qlra.
Qed.

Lemma hhi_score_def bs proxy :
  bs <> [] ->
  hhi_score (calculate_hhi_index bs proxy) =
  Qsum (map (fun s => s * s) (share_percentages bs (shares_and_total proxy bs)))
    * 10000.
Proof. intros Hne. destruct bs; [congruence|]. reflexivity. Qed.

Lemma hhi_bounds_wf proxy bs :
  bs <> [] -> Forall wf_business bs ->
  0 <= hhi_score (calculate_hhi_index bs proxy) <= 10000.
Proof.
  intros Hne Hwf. rewrite hhi_score_def by assumption.
  pose proof (shares_and_total_ok proxy bs Hne Hwf) as [Hs Ht].
  destruct (shares_and_total proxy bs) as [shares total] eqn:E. simpl in Hs, Ht.
  destruct (percentages_distribution bs shares total Hne Hs Ht) as [Hp Hsum].
  pose proof (sumsq_le _ Hp) as Hle.
  pose proof (sumsq_nonneg (share_percentages bs (shares, total))) as H0.
  rewrite Hsum in Hle. split; qlra.
Qed.

(** Equal proxy values: every percentage is [1/n]. *)
Lemma map_div_const l t v n :
  Forall (fun x => x == v) l -> t == n * v -> 0 < t -> 0 < n ->
  Forall (fun x => x == 1 / n) (map (fun s => s / t) l).
Proof.
  intros Hl Ht Hpos Hn. apply Forall_map. eapply Forall_impl; [|exact Hl].
  intros x Hx. cbv beta in Hx |- *.
  assert (~ v == 0) as Hv.
  { intro Hv0. rewrite Hv0, Qmult_0_r in Ht. qlra. }
  rewrite Hx, Ht. field. repeat split; try assumption; intro Hc; qlra.
Qed.

Lemma revenue_shares_all bs v :
  (forall b, In b bs -> revenue_of b == v) -> 0 < v ->
  revenue_shares bs = map revenue_of bs.
Proof.
  intros Hv Hpos. induction bs as [|b bs IH]; [reflexivity|]. simpl.
  assert (Qltb 0 (revenue_of b) = true) as ->.
  { apply Qltb_iff. rewrite (Hv b (or_introl eq_refl)). assumption. }
  f_equal. apply IH. intros; apply Hv; right; assumption.
Qed.

Lemma revenue_shares_none bs :
  (forall b, In b bs -> revenue_of b <= 0) -> revenue_shares bs = [].
Proof.
  intros Hv. induction bs as [|b bs IH]; [reflexivity|]. simpl.
  assert (Qltb 0 (revenue_of b) = false) as ->.
  { apply Qltb_false. apply Hv. left; reflexivity. }
  apply IH. intros; apply Hv; right; assumption.
Qed.

Lemma hhi_of_uniform (bs : list Business) (pcts : list Q) :
  bs <> [] -> List.length pcts = List.length bs ->
  Forall (fun x => x == 1 / len_q bs) pcts ->
  Qsum (map (fun s => s * s) pcts) * 10000 == 10000 / len_q bs.
Proof.
  intros Hne Hlen Hp. pose proof (len_q_pos bs Hne) as Hn.
  rewrite (sumsq_const _ _ Hp).
  assert (len_q pcts = len_q bs) as -> by (unfold len_q; rewrite Hlen; reflexivity).
  field; intro Hc; qlra.
Qed.

Lemma Forall_map_eq {A} (f : A -> Q) l v :
  (forall b, In b l -> f b == v) -> Forall (fun x => x == v) (map f l).
Proof.
  intros H. apply Forall_map, Forall_forall. exact H.
Qed.

Lemma fallback_uniform (bs : list Business) :
  Forall (fun x => x == 1 / len_q bs) (repeat (1 / len_q bs) (List.length bs)).
Proof. apply Forall_repeat_eq. Qed.

(** Percentages from mapped proxy values that all equal [v]. *)
Lemma percentages_uniform_map bs (f : Business -> Q) v :
  bs <> [] -> (forall b, In b bs -> f b == v) ->
  let p := share_percentages bs (map f bs, Qsum (map f bs)) in
  List.length p = List.length bs /\ Forall (fun x => x == 1 / len_q bs) p.
Proof.
  intros Hne Hv. simpl. pose proof (len_q_pos bs Hne) as Hn.
  pose proof (Forall_map_eq f bs v Hv) as Hf.
  pose proof (Qsum_const _ _ Hf) as Hs. rewrite len_q_map in Hs.
  destruct (Qltb 0 (Qsum (map f bs))) eqn:E.
  - apply Qltb_iff in E. rewrite !length_map. split; [reflexivity|].
    apply (map_div_const _ _ v (len_q bs)); assumption.
  - rewrite repeat_length. split; [reflexivity | apply fallback_uniform].
Qed.

Lemma hhi_equal_shares proxy bs v :
  bs <> [] -> (forall b, In b bs -> proxy_value proxy b == v) ->
  hhi_score (calculate_hhi_index bs proxy) == 10000 / len_q bs.
Proof.
  intros Hne Hv. rewrite hhi_score_def by assumption.
  pose proof (len_q_pos bs Hne) as Hn.
  unfold proxy_value, shares_and_total in *.
  destruct (String.eqb proxy "revenue").
  { destruct (Qlt_le_dec 0 v) as [Hp|Hp].
    - rewrite (revenue_shares_all bs v Hv Hp).
      destruct (percentages_uniform_map bs revenue_of v Hne Hv) as [Hl Hf].
      apply hhi_of_uniform; assumption.
    - rewrite revenue_shares_none.
      + apply hhi_of_uniform; [assumption| |].
        * simpl. apply repeat_length.
        * simpl. apply fallback_uniform.
      + intros b Hb. rewrite (Hv b Hb). assumption. }
  destruct (String.eqb proxy "reviews_weighted").
  { destruct (percentages_uniform_map bs weighted_share v Hne Hv) as [Hl Hf].
    apply hhi_of_uniform; assumption. }
  destruct (String.eqb proxy "chain_independent").
  { destruct (percentages_uniform_map bs chain_value v Hne Hv) as [Hl Hf].
    apply hhi_of_uniform; assumption. }
  apply hhi_of_uniform; [assumption| |].
  - simpl. rewrite length_map, repeat_length. reflexivity.
  - simpl. apply (map_div_const _ _ (1 / len_q bs) (len_q bs)).
    + apply Forall_repeat_eq.
    + field; intro Hc; qlra.
    + reflexivity.
    + assumption.
Qed.

Lemma hhi_single proxy b :
  hhi_score (calculate_hhi_index [b] proxy) == 10000.
Proof.
  rewrite (hhi_equal_shares proxy [b] (proxy_value proxy b)).
  - reflexivity.
  - discriminate.
  - intros b' [<- | []]. reflexivity.
Qed.

(** Claim C1 (HHI bounds). For every non-empty list of well-formed
    businesses (no negative review count or rating) and every market-share
    proxy, [0 <= hhi_score <= 10000]; for a single business
    [hhi_score == 10000]; and when all N businesses carry the same
    market-share value under the proxy, [hhi_score == 10000 / N]. *)
Theorem hhi_bounds_single_and_equal :
  (forall proxy bs, bs <> [] -> Forall wf_business bs ->
     0 <= hhi_score (calculate_hhi_index bs proxy) <= 10000) /\
  (forall proxy b, hhi_score (calculate_hhi_index [b] proxy) == 10000) /\
  (forall proxy bs v, bs <> [] ->
     (forall b, In b bs -> proxy_value proxy b == v) ->
     hhi_score (calculate_hhi_index bs proxy) == 10000 / len_q bs).
Proof.
  split; [|split].
  - intros; apply hhi_bounds_wf; assumption.
  - intros; apply hhi_single.
  - intros proxy bs v Hne Hv. eapply hhi_equal_shares; eassumption.
Qed.

Definition rev_business (r : Q) : Business := mkBusiness None (Some r) None None None.

Lemma hhi_bounds_single_and_equal_witness :
  (0 <= hhi_score (calculate_hhi_index [rev_business 90; rev_business 10] "revenue")
     <= 10000) /\
  hhi_score (calculate_hhi_index [rev_business 5] "reviews_weighted") == 10000 /\
  hhi_score (calculate_hhi_index [rev_business 7; rev_business 7; rev_business 7]
               "revenue") == 10000 / 3.
Proof.
  destruct hhi_bounds_single_and_equal as [H1 [H2 H3]].
  split; [|split].
  - apply H1; [discriminate|].
    repeat constructor; unfold wf_business; simpl; qlra.
  - apply H2.
  - rewrite (H3 "revenue" _ 7); [vm_compute; reflexivity | discriminate |].
    intros b Hb. simpl in Hb. unfold proxy_value. simpl.
    destruct Hb as [<- | [<- | [<- | []]]]; reflexivity.
Defined.

Lemma revenue_shares_filter bs :
  revenue_shares bs = map revenue_of (filter (fun b => Qltb 0 (revenue_of b)) bs).
Proof.
  induction bs as [|b bs IH]; [reflexivity|]. simpl.
  destruct (Qltb 0 (revenue_of b)); simpl; rewrite IH; reflexivity.
Qed.

(** Claim C10. Under the ['revenue'] proxy only businesses with strictly
    positive [estimated_revenue] contribute a market-share term; when no
    business of a non-empty list of n businesses has positive revenue,
    every business gets the equal share [1/n] and
    [hhi_score == 10000 / n]. *)
Theorem hhi_revenue_nonpositive_equal :
  (forall bs, revenue_shares bs =
              map revenue_of (filter (fun b => Qltb 0 (revenue_of b)) bs)) /\
  (forall bs, bs <> [] -> (forall b, In b bs -> revenue_of b <= 0) ->
     share_percentages bs (shares_and_total "revenue" bs)
       = repeat (1 / len_q bs) (List.length bs) /\
     hhi_score (calculate_hhi_index bs "revenue") == 10000 / len_q bs).
Proof.
  split; [exact revenue_shares_filter|].
  intros bs Hne Hv.
  assert (share_percentages bs (shares_and_total "revenue" bs)
            = repeat (1 / len_q bs) (List.length bs)) as Hp.
  { unfold shares_and_total. simpl String.eqb. cbv iota.
    rewrite (revenue_shares_none bs Hv). reflexivity. }
  split; [exact Hp|].
  rewrite hhi_score_def by assumption. rewrite Hp.
  apply hhi_of_uniform; [assumption | apply repeat_length | apply fallback_uniform].
Qed.

Lemma hhi_revenue_nonpositive_equal_witness :
  hhi_score (calculate_hhi_index [rev_business 0; rev_business (-5); rev_business 0]
               "revenue") == 10000 / 3.
Proof.
  destruct hhi_revenue_nonpositive_equal as [_ H].
  assert (Hv : forall b, In b [rev_business 0; rev_business (-5); rev_business 0] ->
                 revenue_of b <= 0).
  { intros b Hb. simpl in Hb.
    destruct Hb as [<- | [<- | [<- | []]]]; unfold revenue_of; simpl; qlra. }
  assert (Hne : [rev_business 0; rev_business (-5); rev_business 0] <> [])
    by discriminate.
  rewrite (proj2 (H _ Hne Hv)). vm_compute. reflexivity.
Defined.

End HHIFacts.

(* ------------------------------------------------------------------ *)
(** ** Revenue estimator *)
Module RevenueFacts.
Import Revenue.
Local Open Scope R_scope.

Lemma ln_le_mono x y : 0 < x -> x <= y -> ln x <= ln y.
Proof.
  intros Hx Hxy. destruct (Rle_lt_or_eq_dec x y Hxy) as [Hlt | ->].
  - left. apply ln_increasing; assumption.
  - right. reflexivity.
Qed.

Lemma log1p_guarded_nonneg n : 0 <= log1p_guarded n.
Proof.
  unfold log1p_guarded. destruct (0 <=? n)%Z eqn:E; [|right; reflexivity].
  apply Z.leb_le in E. apply IZR_le in E.
  rewrite <- ln_1. apply ln_le_mono; lra.
Qed.

Lemma log1p_guarded_mono n1 n2 :
  (n1 <= n2)%Z -> log1p_guarded n1 <= log1p_guarded n2.
Proof.
  intros H. unfold log1p_guarded.
  destruct (0 <=? n1)%Z eqn:E1.
  - assert (E2 : (0 <=? n2)%Z = true) by (apply Z.leb_le; apply Z.leb_le in E1; lia).
    rewrite E2. apply Z.leb_le in E1. apply IZR_le in E1. apply IZR_le in H.
    apply ln_le_mono; lra.
  - fold (log1p_guarded n2). apply log1p_guarded_nonneg.
Qed.

Lemma lookup_coeff_in k m c : lookup_coeff k m = Some c -> In c (map snd m).
Proof.
  induction m as [|[k' v] m IH]; simpl; [discriminate|].
  destruct (String.eqb k k'); [intros [= <-]; left; reflexivity|].
  intros H; right; apply IH; exact H.
Qed.

Lemma coefficients_pos industry :
  (0 < fst (coefficients industry))%Z /\ (0 < snd (coefficients industry))%Z.
Proof.
  unfold coefficients. destruct lookup_coeff as [c|] eqn:E.
  - apply lookup_coeff_in in E.
    assert (Hall : Forall (fun c => (0 < fst c)%Z /\ (0 < snd c)%Z)
                          (map snd industry_coefficients))
      by (repeat constructor).
    rewrite Forall_forall in Hall. apply Hall, E.
  - split; reflexivity.
Qed.

Lemma base_nonneg_mono a b r1 r2 p :
  (0 < a)%Z -> (0 < b)%Z -> (r1 <= r2)%Z ->
  0 <= IZR a * log1p_guarded r1 + IZR b * log1p_guarded p <=
       IZR a * log1p_guarded r2 + IZR b * log1p_guarded p.
Proof.
  intros Ha Hb Hr. apply IZR_lt in Ha, Hb.
  pose proof (log1p_guarded_nonneg r1). pose proof (log1p_guarded_nonneg p).
  pose proof (log1p_guarded_mono r1 r2 Hr).
  split; nra.
Qed.

(** Whatever the sign of the adjustment, clamping at a positive floor keeps
    the estimate monotone in a non-negative base. *)
Lemma clamp_scaled_mono b1 b2 adj floor :
  0 <= b1 <= b2 -> 0 < floor -> Rmax (b1 * adj) floor <= Rmax (b2 * adj) floor.
Proof.
  intros [H1 H2] Hf. unfold Rmax.
  destruct (Rle_dec 0 adj) as [Ha|Ha].
  - assert (b1 * adj <= b2 * adj) by nra.
    destruct (Rle_dec (b1 * adj) floor); destruct (Rle_dec (b2 * adj) floor); lra.
  - assert (b1 * adj <= 0) by nra. assert (b2 * adj <= 0) by nra.
    destruct (Rle_dec (b1 * adj) floor); destruct (Rle_dec (b2 * adj) floor); lra.
Qed.

Lemma revenue_estimate_def name r p industry af :
  revenue_estimate (calculate_revenue_estimate name r p industry af) =
  Rmax ((IZR (fst (coefficients industry)) * log1p_guarded r +
         IZR (snd (coefficients industry)) * log1p_guarded p)
        * adjustment_factor af) minimum_revenue.
Proof.
  unfold calculate_revenue_estimate. destruct (coefficients industry); reflexivity.
Qed.

(** Claim C6. With picture count, industry and additional factors fixed,
    the revenue estimate is monotonically non-decreasing in [review_count],
    and it is always at least 150000. *)
Theorem revenue_monotone_and_floor :
  (forall name pictures industry af r1 r2, (r1 <= r2)%Z ->
     revenue_estimate (calculate_revenue_estimate name r1 pictures industry af) <=
     revenue_estimate (calculate_revenue_estimate name r2 pictures industry af)) /\
  (forall name reviews pictures industry af,
     150000 <= revenue_estimate
                 (calculate_revenue_estimate name reviews pictures industry af)).
Proof.
  split.
  - intros name p industry af r1 r2 Hr. rewrite !revenue_estimate_def.
    destruct (coefficients_pos industry) as [Ha Hb].
    apply clamp_scaled_mono.
    + apply base_nonneg_mono; assumption.
    + unfold minimum_revenue. lra.
  - intros. rewrite revenue_estimate_def. unfold minimum_revenue. apply Rmax_r.
Qed.

Lemma revenue_monotone_and_floor_witness :
  revenue_estimate (calculate_revenue_estimate "Cool Air" 12 4 "HVAC"
                      (Some (mkFactors (Some (47 / 10)) (Some 20) None 0))) <=
  revenue_estimate (calculate_revenue_estimate "Cool Air" 300 4 "HVAC"
                      (Some (mkFactors (Some (47 / 10)) (Some 20) None 0))).
Proof.
  apply (proj1 revenue_monotone_and_floor). lia.
Defined.

End RevenueFacts.

(* ------------------------------------------------------------------ *)
(** ** Density calculator and its service state *)
Module DensityFacts.
Import PyStr Analytics Density.
Local Open Scope Q_scope.

Definition fresh_service : State := mkState [] (fun _ => 1 # 2) 0.

(** Claim C9 fails: one call of the density calculator for a location
    changes the service's cross-call state (the population cache). *)
Lemma density_call_changes_state :
  snd (calculate_business_density 3 "Springfield" "hvac" false fresh_service)
    <> fresh_service.
Proof.
  intro H. apply (f_equal population_cache) in H. vm_compute in H. discriminate.
Qed.

(** Where the census data of one lookup comes from. *)
Definition census_origin (location : string) (st st1 : State) (d : CensusData) : Prop :=
  (lookup (lower location) (population_cache st) = Some d /\ st1 = st) \/
  (lookup (lower location) (population_cache st) = None /\
   population_cache st1 = (lower location, d) :: population_cache st /\
   (((lookup (lower location) metro_census_data = Some d \/
      (lookup (lower location) metro_census_data = None /\
       partial_match (lower location) metro_census_data = Some d)) /\
     rng_pos st1 = rng_pos st) \/
    (lookup (lower location) metro_census_data = None /\
     partial_match (lower location) metro_census_data = None /\
     d = fst (_generate_realistic_census_estimate st) /\
     rng_pos st1 = (rng_pos st + 4)%nat))).

Lemma fetch_spec location st :
  let (d, st1) := _fetch_census_acs_data location st in
  _fetch_census_acs_data location st1 = (d, st1) /\
  rng st1 = rng st /\ census_origin location st st1 d.
Proof.
  unfold census_origin, _fetch_census_acs_data.
  destruct (lookup (lower location) (population_cache st)) as [d|] eqn:E.
  - rewrite E. auto.
  - unfold _get_realistic_census_data.
    destruct (lookup (lower location) metro_census_data) as [d|] eqn:E1;
      [cbn [population_cache rng rng_pos lookup]; rewrite String.eqb_refl; auto 10|].
    destruct (partial_match (lower location) metro_census_data) as [d|] eqn:E2;
      [cbn [population_cache rng rng_pos lookup]; rewrite String.eqb_refl; auto 10|].
    unfold _generate_realistic_census_estimate, draw.
    cbn [population_cache rng rng_pos fst lookup]. rewrite String.eqb_refl.
    split; [reflexivity|]. split; [reflexivity|]. right.
    split; [reflexivity|]. split; [reflexivity|]. right.
    repeat split; lia.
Qed.

(** Claim C9 as amended. The density calculator's only cross-call effect is
    on the service state, and the census data [d] behind the result
    ([population_base] is its population or household count) is either the
    cached entry for the lower-cased location, with the state unchanged, or
    is added to the cache under that key: the exact metro entry, else the
    first metro entry whose key contains the location or is contained in it,
    both with no random draw; only when no metro key matches is [d]
    generated, from four draws.  The random stream itself is never replaced,
    and a repeated call with the same arguments on the resulting service
    returns the same result and leaves the state unchanged. *)
Theorem density_cache_idempotent count location industry use_households st :
  let (r1, st1) := calculate_business_density count location industry use_households st in
  calculate_business_density count location industry use_households st1 = (r1, st1) /\
  rng st1 = rng st /\
  exists d,
    population_base r1 =
      (if use_households then total_households d else population d) /\
    census_origin location st st1 d.
Proof.
  unfold calculate_business_density.
  pose proof (fetch_spec location st) as H.
  destruct (_fetch_census_acs_data location st) as [d st1].
  destruct H as (H1 & H2 & H3). rewrite H1.
  split; [reflexivity | split; [assumption|]].
  exists d. split; [reflexivity | exact H3].
Qed.

Lemma density_zero_businesses location industry use_households st :
  business_density
    (fst (calculate_business_density 0 location industry use_households st)) == 0.
Proof.
  unfold calculate_business_density.
  destruct (_fetch_census_acs_data location st) as [d st1]. simpl.
  destruct (Qltb 0 _); reflexivity.
Qed.

End DensityFacts.

(* ------------------------------------------------------------------ *)
(** ** Fallback values of the analytics calculators *)
Module FallbackFacts.
Local Open Scope R_scope.

(** Claim C7. The calculators degrade to fallback values on missing inputs:
    zero reviews and zero pictures give the 150000 revenue floor, an empty
    business list gives [hhi_score == 0], and zero businesses give business
    density 0 whatever the location and the service state. *)
Theorem analytics_fallbacks :
  (forall name industry af,
     Revenue.revenue_estimate
       (Revenue.calculate_revenue_estimate name 0 0 industry af) = 150000) /\
  (forall proxy,
     Qeq (Analytics.hhi_score (Analytics.calculate_hhi_index [] proxy)) 0) /\
  (forall location industry use_households st,
     Qeq (Density.business_density
            (fst (Density.calculate_business_density 0 location industry
                    use_households st))) 0).
Proof.
  split; [|split].
  - intros. rewrite RevenueFacts.revenue_estimate_def.
    unfold Revenue.log1p_guarded. simpl Z.leb. cbv iota.
    rewrite Rplus_0_r, ln_1, !Rmult_0_r, Rplus_0_r, Rmult_0_l.
    unfold Revenue.minimum_revenue. apply Rmax_right. lra.
  - intros. reflexivity.
  - intros. apply DensityFacts.density_zero_businesses.
Qed.

End FallbackFacts.

(* ------------------------------------------------------------------ *)
(** ** Relevance filter *)
Module RelevanceFacts.
Import Relevance.

(** Claim C8 (code defect). With industry ["healthcare"] a name containing
    ["hospital"] (and no other exclusion keyword) is still rejected, while
    the healthcare exception does apply to ["clinic"]: in the list literal
    the conditional [... if industry_lower != 'healthcare' else ''] covers
    only ['clinic']. *)
Theorem healthcare_hospital_rejected :
  _is_relevant_business "Mercy Hospital" "healthcare" = false /\
  _is_relevant_business "Mercy Clinic" "healthcare" = true /\
  existsb (fun k => is_nonempty k && PyStr.contains k "mercy hospital")
          (exclusion_keywords "healthcare") = true /\
  filter (fun k => is_nonempty k && PyStr.contains k "mercy hospital")
         (exclusion_keywords "healthcare") = ["hospital"].
Proof. vm_compute. repeat split. Qed.

End RelevanceFacts.

(* ------------------------------------------------------------------ *)
(** ** Deduplicator: base-record selection *)
Module SelectFacts.
Import Dedup.
Local Open Scope Q_scope.
Local Open Scope list_scope.

Ltac qlra := Lqa.lra.

Lemma key_Qltb_iff (x y : Q) : Qltb x y = true <-> x < y.
Proof.
  unfold Qltb. rewrite negb_true_iff.
  split; intro H.
  - apply Qnot_le_lt. intro H'. apply Qle_bool_iff in H'. congruence.
  - destruct (Qle_bool y x) eqn:E; [|reflexivity].
    apply Qle_bool_iff in E. exfalso. apply (Qlt_not_le _ _ H E).
Qed.

Definition lex_gt (a b : nat * nat * nat * Q) : Prop :=
  let '(a1, a2, a3, a4) := a in
  let '(b1, b2, b3, b4) := b in
  (b1 < a1)%nat \/ (a1 = b1 /\ ((b2 < a2)%nat \/ (a2 = b2 /\
  ((b3 < a3)%nat \/ (a3 = b3 /\ b4 < a4))))).

Definition lex_eqv (a b : nat * nat * nat * Q) : Prop :=
  let '(a1, a2, a3, a4) := a in
  let '(b1, b2, b3, b4) := b in
  a1 = b1 /\ a2 = b2 /\ a3 = b3 /\ a4 == b4.

Lemma key_gt_spec a b : key_gt a b = true <-> lex_gt a b.
Proof.
  destruct a as [[[a1 a2] a3] a4], b as [[[b1 b2] b3] b4].
  unfold key_gt, lex_gt. cbv beta iota.
  repeat first [rewrite orb_true_iff | rewrite andb_true_iff].
  rewrite !Nat.ltb_lt, !Nat.eqb_eq, key_Qltb_iff.
  reflexivity.
Qed.

Lemma lex_gt_trans a b c : lex_gt a b -> lex_gt b c -> lex_gt a c.
Proof.
  destruct a as [[[a1 a2] a3] a4], b as [[[b1 b2] b3] b4],
           c as [[[c1 c2] c3] c4]. simpl.
  intros H1 H2.
  destruct (lt_eq_lt_dec c1 a1) as [[L1|E1]|G1];
    [left; exact L1 | right; split; [symmetry; exact E1|] | exfalso; intuition lia].
  destruct (lt_eq_lt_dec c2 a2) as [[L2|E2]|G2];
    [left; exact L2 | right; split; [symmetry; exact E2|] | exfalso; intuition lia].
  destruct (lt_eq_lt_dec c3 a3) as [[L3|E3]|G3];
    [left; exact L3 | right; split; [symmetry; exact E3|] | exfalso; intuition lia].
  intuition (first [qlra | exfalso; lia]).
Qed.

Lemma lex_not_gt a b : ~ lex_gt a b -> lex_gt b a \/ lex_eqv a b.
Proof.
  destruct a as [[[a1 a2] a3] a4], b as [[[b1 b2] b3] b4]. simpl.
  intros H.
  destruct (lt_eq_lt_dec a1 b1) as [[L1|E1]|G1]; [left; left; exact L1| |exfalso; tauto].
  subst b1.
  destruct (lt_eq_lt_dec a2 b2) as [[L2|E2]|G2];
    [left; right; split; [reflexivity| left; exact L2]| |exfalso; tauto].
  subst b2.
  destruct (lt_eq_lt_dec a3 b3) as [[L3|E3]|G3];
    [left; right; split; [reflexivity| right; split; [reflexivity| left; exact L3]]
    | |exfalso; tauto].
  subst b3.
  destruct (Q_dec a4 b4) as [[L4|G4]|E4].
  - left. right. split; [reflexivity|]. right. split; [reflexivity|].
    right. split; [reflexivity| exact L4].
  - exfalso. apply H. right. split; [reflexivity|]. right. split; [reflexivity|].
    right. split; [reflexivity| exact G4].
  - right. repeat split; assumption.
Qed.

Lemma lex_gt_eqv a b c : lex_gt a b -> lex_eqv b c -> lex_gt a c.
Proof.
  destruct a as [[[a1 a2] a3] a4], b as [[[b1 b2] b3] b4],
           c as [[[c1 c2] c3] c4]. simpl.
  intros H (-> & -> & -> & E4).
  intuition (first [qlra | lia]).
Qed.

Lemma key_gt_step x best y :
  key_gt x best = true -> key_gt y best = false -> key_gt x y = true.
Proof.
  rewrite !key_gt_spec. intros H1 H2.
  assert (~ lex_gt y best) as H2' by (rewrite <- key_gt_spec; congruence).
  destruct (lex_not_gt _ _ H2') as [H | H].
  - eapply lex_gt_trans; eassumption.
  - destruct y as [[[y1 y2] y3] y4], best as [[[b1 b2] b3] b4].
    apply (lex_gt_eqv _ (b1, b2, b3, b4)); [assumption|].
    simpl in H |- *. destruct H as (-> & -> & -> & E). repeat split; qlra.
Qed.

Lemma key_gt_trans x y z :
  key_gt x y = true -> key_gt y z = true -> key_gt x z = true.
Proof. rewrite !key_gt_spec. apply lex_gt_trans. Qed.

Definition first_max (g : list Biz) (b : Biz) : Prop :=
  exists pre post, g = pre ++ b :: post /\
    Forall (fun x => key_gt (base_key b) (base_key x) = true) pre /\
    Forall (fun x => key_gt (base_key x) (base_key b) = false) post.

Lemma fold_first_max rest : forall seen best,
  first_max seen best ->
  first_max (seen ++ rest)
    (fold_left (fun best x =>
       if key_gt (base_key x) (base_key best) then x else best) rest best).
Proof.
  induction rest as [|x rest IH]; intros seen best H.
  - rewrite app_nil_r. exact H.
  - cbn [fold_left]. replace (seen ++ x :: rest) with ((seen ++ [x]) ++ rest)
      by (rewrite <- app_assoc; reflexivity).
    destruct H as (pre & post & -> & Hpre & Hpost).
    destruct (key_gt (base_key x) (base_key best)) eqn:E; apply IH.
    + exists (pre ++ best :: post), []. split.
      { rewrite <- app_assoc. reflexivity. }
      split; [|constructor].
      apply Forall_app. split.
      * eapply Forall_impl; [|exact Hpre]. intros y Hy.
        eapply key_gt_trans; eassumption.
      * constructor; [assumption|].
        eapply Forall_impl; [|exact Hpost]. intros y Hy.
        eapply key_gt_step; eassumption.
    + exists pre, (post ++ [x]). split.
      { rewrite <- app_assoc. reflexivity. }
      split; [assumption|]. apply Forall_app. split; [assumption|].
      constructor; [assumption | constructor].
Qed.

Lemma select_base_first_max g b : select_base g = Some b -> first_max g b.
Proof.
  destruct g as [|b0 rest]; [discriminate|]. simpl. intros [= <-].
  apply (fold_first_max rest [b0] b0).
  exists [], []. repeat split; constructor.
Qed.

(** The spec's completeness score, [len(website) + len(phone) + len(email)
    + review_count], written from the spec's words to compare with the
    code's selection key. *)
Definition spec_completeness_score (b : Biz) : Q :=
  inject_Z (Z.of_nat (String.length (get_str (website (contact_of b))) +
                      String.length (get_str (phone (contact_of b))) +
                      String.length (get_str (email (contact_of b))))) +
  get_q (review_count (metrics_of b)).

Definition contact_only (w p : string) : Biz :=
  mkBiz (Some "Acme Heating") (Some (mkContact (Some w) (Some p) None None None None))
        None (Some ["yelp"]) None None.

(** Claim C4 fails: of two co-referring records, one with a 1-character
    website and a 10-character phone (score 11) and one with a 2-character
    website and no phone (score 2), the code picks the second. *)
Lemma base_selection_not_sum :
  select_base [contact_only "a" "0123456789"; contact_only "ab" EmptyString] =
    Some (contact_only "ab" EmptyString) /\
  spec_completeness_score (contact_only "ab" EmptyString) <
    spec_completeness_score (contact_only "a" "0123456789").
Proof. split; [reflexivity | vm_compute; reflexivity]. Qed.

(** Claim C4 as amended. The base record of a group is the first record in
    input order whose key [(len(website), len(phone), len(email),
    review_count)] is maximal in Python's lexicographic tuple order: every
    earlier record has a strictly smaller key and no later record has a
    strictly greater one. *)
Theorem base_selection_lexicographic_first g b :
  select_base g = Some b ->
  exists pre post, g = pre ++ b :: post /\
    Forall (fun x => key_gt (base_key b) (base_key x) = true) pre /\
    Forall (fun x => key_gt (base_key x) (base_key b) = false) post.
Proof. apply select_base_first_max. Qed.

Lemma base_selection_lexicographic_first_witness :
  exists pre post,
    [contact_only "a" "0123456789"; contact_only "ab" EmptyString] =
      pre ++ contact_only "ab" EmptyString :: post /\
    Forall (fun x => key_gt (base_key (contact_only "ab" EmptyString))
                            (base_key x) = true) pre /\
    Forall (fun x => key_gt (base_key x)
                            (base_key (contact_only "ab" EmptyString)) = false) post.
Proof.
  apply base_selection_lexicographic_first. reflexivity.
Defined.

End SelectFacts.

(* ------------------------------------------------------------------ *)
(** ** Deduplicator: the grouping dict *)
Module GroupFacts.
Import PyStr Dedup.
Local Open Scope list_scope.

(** Membership of a record in the group of key [k]. *)
Definition has_key (k : string) (b : Biz) : bool :=
  has_name b && String.eqb (biz_key b) k.

(** The dict's keys in first-insertion order. *)
Definition key_step (K : list string) (b : Biz) : list string :=
  if has_name b then
    if existsb (String.eqb (biz_key b)) K then K else K ++ [biz_key b]
  else K.

Definition group_keys (bs : list Biz) : list string := fold_left key_step bs [].

Lemma existsb_eqb_In k K : existsb (String.eqb k) K = true <-> In k K.
Proof.
  rewrite existsb_exists. split.
  - intros (x & Hx & E). apply String.eqb_eq in E. subst. exact Hx.
  - intros H. exists k. split; [exact H | apply String.eqb_refl].
Qed.

Lemma group_keys_snoc bs b : group_keys (bs ++ [b]) = key_step (group_keys bs) b.
Proof. unfold group_keys. rewrite fold_left_app. reflexivity. Qed.

Lemma group_keys_spec bs :
  NoDup (group_keys bs) /\
  forall k, In k (group_keys bs) <-> exists b, In b bs /\ has_key k b = true.
Proof.
  induction bs as [|b bs IH] using rev_ind.
  - split; [constructor|]. intros k. simpl. split; [intros []|intros (b & [] & _)].
  - rewrite group_keys_snoc. destruct IH as [Hnd Hin].
    unfold key_step. destruct (has_name b) eqn:Hb.
    + destruct (existsb (String.eqb (biz_key b)) (group_keys bs)) eqn:E.
      * apply existsb_eqb_In in E. split; [assumption|].
        intros k. rewrite Hin. split.
        -- intros (b' & H1 & H2). exists b'. split; [apply in_or_app; left|]; assumption.
        -- intros (b' & H1 & H2). apply in_app_or in H1. destruct H1 as [H1|[<-|[]]].
           ++ exists b'. split; assumption.
           ++ apply Hin. unfold has_key in H2. rewrite Hb in H2. simpl in H2.
              apply String.eqb_eq in H2. subst k. exact E.
      * assert (Hn : ~ In (biz_key b) (group_keys bs))
          by (rewrite <- existsb_eqb_In; congruence).
        split.
        -- apply NoDup_app; [assumption | repeat constructor; intros [] |].
           intros x Hx [<- | []]. contradiction.
        -- intros k. rewrite in_app_iff, Hin. simpl. split.
           ++ intros [(b' & H1 & H2) | [<- | []]].
              ** exists b'. split; [apply in_or_app; left|]; assumption.
              ** exists b. split; [apply in_or_app; right; left; reflexivity|].
                 unfold has_key. rewrite Hb, String.eqb_refl. reflexivity.
           ++ intros (b' & H1 & H2). apply in_app_or in H1.
              destruct H1 as [H1|[<-|[]]].
              ** left. exists b'. split; assumption.
              ** right. left. unfold has_key in H2. rewrite Hb in H2. simpl in H2.
                 apply String.eqb_eq in H2. exact H2.
    + split; [assumption|]. intros k. rewrite Hin. split.
      * intros (b' & H1 & H2). exists b'. split; [apply in_or_app; left|]; assumption.
      * intros (b' & H1 & H2). apply in_app_or in H1. destruct H1 as [H1|[<-|[]]].
        -- exists b'. split; assumption.
        -- unfold has_key in H2. rewrite Hb in H2. discriminate.
Qed.

Lemma add_to_group_in k b K (F : string -> list Biz) :
  In k K -> NoDup K ->
  add_to_group k b (map (fun k' => (k', F k')) K) =
  map (fun k' => (k', if String.eqb k' k then F k' ++ [b] else F k')) K.
Proof.
  induction K as [|a K IH]; intros Hin Hnd; [destruct Hin|].
  inversion Hnd as [|? ? Ha Hnd']; subst. simpl.
  destruct (String.eqb a k) eqn:E.
  - apply String.eqb_eq in E. subst a. f_equal.
    apply map_ext_in. intros k' Hk'.
    destruct (String.eqb k' k) eqn:E'; [|reflexivity].
    apply String.eqb_eq in E'. subst. contradiction.
  - f_equal. apply IH; [|assumption].
    destruct Hin as [->|Hin]; [rewrite String.eqb_refl in E; discriminate | exact Hin].
Qed.

Lemma add_to_group_notin k b K (F : string -> list Biz) :
  ~ In k K ->
  add_to_group k b (map (fun k' => (k', F k')) K) =
  map (fun k' => (k', F k')) K ++ [(k, [b])].
Proof.
  induction K as [|a K IH]; intros Hn; [reflexivity|]. simpl.
  destruct (String.eqb a k) eqn:E.
  - apply String.eqb_eq in E. subst. exfalso. apply Hn. left. reflexivity.
  - f_equal. apply IH. intros H. apply Hn. right. exact H.
Qed.

Lemma filter_snoc {A} (f : A -> bool) l x :
  filter f (l ++ [x]) = if f x then filter f l ++ [x] else filter f l.
Proof.
  rewrite filter_app. simpl. destruct (f x); [reflexivity | apply app_nil_r].
Qed.

Lemma has_key_named k b :
  has_name b = true -> has_key k b = String.eqb (biz_key b) k.
Proof. intros Hb. unfold has_key. rewrite Hb. reflexivity. Qed.

Lemma has_key_unnamed k b : has_name b = false -> has_key k b = false.
Proof. intros Hb. unfold has_key. rewrite Hb. reflexivity. Qed.

(** The grouping dict holds, for each key in first-insertion order, exactly
    the records of that key in input order. *)
Lemma group_businesses_spec bs :
  group_businesses bs = map (fun k => (k, filter (has_key k) bs)) (group_keys bs).
Proof.
  induction bs as [|b bs IH] using rev_ind; [reflexivity|].
  unfold group_businesses. rewrite fold_left_app. fold (group_businesses bs).
  rewrite IH, group_keys_snoc. cbn [fold_left].
  destruct (group_keys_spec bs) as [Hnd Hin].
  unfold group_step, key_step. destruct (has_name b) eqn:Hb.
  - destruct (existsb (String.eqb (biz_key b)) (group_keys bs)) eqn:E.
    + apply existsb_eqb_In in E.
      rewrite (add_to_group_in _ _ _ (fun k => filter (has_key k) bs) E Hnd).
      apply map_ext_in. intros k Hk. f_equal.
      rewrite filter_snoc, (has_key_named k b Hb), String.eqb_sym. reflexivity.
    + assert (Hn : ~ In (biz_key b) (group_keys bs))
        by (rewrite <- existsb_eqb_In; congruence).
      rewrite (add_to_group_notin _ _ _ (fun k => filter (has_key k) bs) Hn).
      rewrite map_app. simpl map at 2. f_equal.
      * apply map_ext_in. intros k Hk. f_equal.
        rewrite filter_snoc, (has_key_named k b Hb).
        destruct (String.eqb (biz_key b) k) eqn:E'; [|reflexivity].
        apply String.eqb_eq in E'. subst. contradiction.
      * simpl map. f_equal. f_equal.
        rewrite filter_snoc, (has_key_named _ b Hb), String.eqb_refl.
        assert (filter (has_key (biz_key b)) bs = []) as ->; [|reflexivity].
        destruct (filter (has_key (biz_key b)) bs) as [|x l] eqn:Ef; [reflexivity|].
        exfalso. apply Hn. apply Hin. exists x.
        assert (In x (filter (has_key (biz_key b)) bs)) as Hx
          by (rewrite Ef; left; reflexivity).
        apply filter_In in Hx. exact Hx.
  - apply map_ext_in. intros k Hk. f_equal.
    rewrite filter_snoc, (has_key_unnamed k b Hb). reflexivity.
Qed.

End GroupFacts.

(* ------------------------------------------------------------------ *)
(** ** Deduplicator: merging one group *)
Module MergeFacts.
Import PyStr Dedup GroupFacts.
Local Open Scope Q_scope.
Local Open Scope list_scope.

Ltac qlra := Lqa.lra.

(** [b.get('metrics', {}).get('review_count', 0)]. *)
Definition get_rc (b : Biz) : Q := get_q (review_count (metrics_of b)).

Definition py_max (acc x : Q) : Q := if Qltb acc x then x else acc.

Lemma Qltb_true (x y : Q) : Qltb x y = true -> x < y.
Proof.
  unfold Qltb. rewrite negb_true_iff. intros H.
  apply Qnot_le_lt. intro H'. apply Qle_bool_iff in H'. congruence.
Qed.

Lemma Qltb_false_le (x y : Q) : Qltb x y = false -> y <= x.
Proof.
  unfold Qltb. rewrite negb_false_iff. apply Qle_bool_iff.
Qed.

Lemma Qltb_irrefl (x : Q) : Qltb x x = false.
Proof.
  unfold Qltb. rewrite negb_false_iff. apply Qle_bool_iff. apply Qle_refl.
Qed.

(** [set.update] on the insertion-ordered set. *)
Lemma set_add_spec s x :
  NoDup s -> NoDup (set_add s x) /\ (forall y, In y (set_add s x) <-> In y s \/ y = x).
Proof.
  intros Hnd. unfold set_add.
  destruct (existsb (String.eqb x) s) eqn:E.
  - apply existsb_eqb_In in E. split; [assumption|].
    intros y. split; [tauto|]. intros [H | ->]; assumption.
  - assert (~ In x s) as Hn by (rewrite <- existsb_eqb_In; congruence).
    split.
    + apply NoDup_app; [assumption | repeat constructor; intros [] |].
      intros y Hy [<- | []]. contradiction.
    + intros y. rewrite in_app_iff. simpl. split; intros [H|H]; intuition.
Qed.

Lemma set_update_spec xs : forall s,
  NoDup s -> NoDup (set_update s xs) /\
  (forall y, In y (set_update s xs) <-> In y s \/ In y xs).
Proof.
  induction xs as [|x xs IH]; intros s Hnd; simpl.
  - split; [assumption|]. intros y. tauto.
  - unfold set_update in *. simpl.
    destruct (set_add_spec s x Hnd) as [Hnd' Hin'].
    destruct (IH _ Hnd') as [H1 H2]. split; [assumption|].
    intros y. rewrite H2, Hin'. intuition.
Qed.

Lemma set_update_app_nodup xs : forall s,
  NoDup (s ++ xs) -> set_update s xs = s ++ xs.
Proof.
  induction xs as [|x xs IH]; intros s Hnd.
  - rewrite app_nil_r. reflexivity.
  - unfold set_update in *. simpl. unfold set_add at 2.
    assert (~ In x s) as Hn.
    { intro Hin. apply NoDup_remove_2 in Hnd. apply Hnd, in_app_iff. now left. }
    destruct (existsb (String.eqb x) s) eqn:E.
    { apply existsb_eqb_In in E. contradiction. }
    rewrite IH; [rewrite <- app_assoc; reflexivity|].
    rewrite <- app_assoc. exact Hnd.
Qed.

Lemma set_update_nodup_self xs : NoDup xs -> set_update [] xs = xs.
Proof. intros H. apply (set_update_app_nodup xs []). exact H. Qed.

(** Each contact field of a merge comes from one of the two inputs. *)
Ltac split_ifs :=
  repeat match goal with
  | |- context [if ?b then _ else _] => destruct b
  end.

Lemma merge_contact_website c bc :
  website (merge_contact c bc) = website c \/ website (merge_contact c bc) = website bc.
Proof. unfold merge_contact; cbv zeta; split_ifs; simpl; auto. Qed.

Lemma merge_contact_phone c bc :
  phone (merge_contact c bc) = phone c \/ phone (merge_contact c bc) = phone bc.
Proof. unfold merge_contact; cbv zeta; split_ifs; simpl; auto. Qed.

Lemma merge_contact_email c bc :
  email (merge_contact c bc) = email c \/ email (merge_contact c bc) = email bc.
Proof. unfold merge_contact; cbv zeta; split_ifs; simpl; auto. Qed.

Lemma fill_cond_false (o : option string) : negb (truthy o) && truthy o = false.
Proof. destruct (truthy o); reflexivity. Qed.

Lemma merge_contact_self c : merge_contact c c = c.
Proof.
  unfold merge_contact; cbv zeta.
  rewrite !fill_cond_false. reflexivity.
Qed.

Lemma merge_metrics_review_count m bm m' :
  merge_metrics m bm = Some m' ->
  get_q (review_count m') = py_max (get_q (review_count m)) (get_q (review_count bm)).
Proof.
  unfold merge_metrics, py_max.
  destruct (Qltb (get_q (rating m)) (get_q (rating bm))).
  - destruct (rating bm) as [r|]; [|discriminate]. simpl.
    destruct (Qltb (get_q (review_count m)) (get_q (review_count bm))).
    + destruct (review_count bm); [|discriminate]. intros H; injection H as <-.
      reflexivity.
    + intros H; injection H as <-. reflexivity.
  - destruct (Qltb (get_q (review_count m)) (get_q (review_count bm))).
    + destruct (review_count bm); [|discriminate]. intros H; injection H as <-.
      reflexivity.
    + intros H; injection H as <-. reflexivity.
Qed.

Lemma merge_metrics_self m : merge_metrics m m = Some m.
Proof.
  unfold merge_metrics. rewrite !Qltb_irrefl. reflexivity.
Qed.

Lemma merge_fold_none P : fold_left merge_step P None = None.
Proof. induction P as [|b P IH]; simpl; auto. Qed.

Definition sources_of (S0 : list string) (P : list Biz) : list string :=
  fold_left (fun s b => set_update s (get_list (data_sources b))) P S0.

Definition tags_of (T0 : list string) (P : list Biz) : list string :=
  fold_left (fun s b => set_update s (get_list (tags b))) P T0.

Definition max_rc (a : Q) (P : list Biz) : Q :=
  fold_left (fun a b => py_max a (get_rc b)) P a.

(** What the merge loop keeps, accumulates and chooses. *)
Lemma merge_fold_spec P : forall m0 S0 T0 m S T,
  fold_left merge_step P (Some (m0, S0, T0)) = Some (m, S, T) ->
  name m = name m0 /\ data_sources m = data_sources m0 /\
  source_count m = source_count m0 /\ tags m = tags m0 /\
  S = sources_of S0 P /\ T = tags_of T0 P /\
  get_rc m = max_rc (get_rc m0) P /\
  (P <> [] -> exists c mt, contact m = Some c /\ metrics m = Some mt) /\
  (forall f : Contact -> option string,
     (forall c bc, f (merge_contact c bc) = f c \/ f (merge_contact c bc) = f bc) ->
     forall w, f (contact_of m) = Some w ->
     f (contact_of m0) = Some w \/ exists b, In b P /\ f (contact_of b) = Some w).
Proof.
  induction P as [|b P IH]; intros m0 S0 T0 m S T H.
  - simpl in H. injection H as <- <- <-.
    repeat split; auto. intros []; reflexivity.
  - cbn [fold_left] in H. unfold merge_step at 2 in H.
    destruct (merge_metrics (metrics_of m0) (metrics_of b)) as [mt|] eqn:Em;
      [|rewrite merge_fold_none in H; discriminate].
    destruct (IH _ _ _ _ _ _ H)
      as (Hn & Hd & Hs & Ht & HS & HT & Hrc & Hcm & Hf); simpl in *.
    repeat split; auto.
    + rewrite Hrc. unfold max_rc. cbn [fold_left]. f_equal.
      unfold get_rc, metrics_of at 1. cbn [metrics].
      exact (merge_metrics_review_count _ _ _ Em).
    + intros _. destruct P as [|b' P'].
      * simpl in H. injection H as <- _ _. simpl. eauto.
      * apply Hcm. discriminate.
    + intros f Hfm w Hw. destruct (Hf f Hfm w Hw) as [H1 | (b' & Hb' & H1)].
      * unfold contact_of in H1 at 1. simpl in H1.
        destruct (Hfm (contact_of m0) (contact_of b)) as [H2 | H2];
          rewrite H2 in H1; auto. right. exists b. auto.
      * right. exists b'. auto.
Qed.

Lemma max_rc_ge P : forall a,
  a <= max_rc a P /\ Forall (fun b => get_rc b <= max_rc a P) P.
Proof.
  induction P as [|b P IH]; intros a; simpl.
  - split; [apply Qle_refl | constructor].
  - destruct (IH (py_max a (get_rc b))) as [H1 H2].
    unfold max_rc in *. cbn [fold_left].
    assert (a <= py_max a (get_rc b) /\ get_rc b <= py_max a (get_rc b)) as [Ha Hb].
    { unfold py_max. destruct (Qltb a (get_rc b)) eqn:E.
      - apply Qltb_true in E. split; qlra.
      - apply Qltb_false_le in E. split; qlra. }
    split; [qlra|]. constructor; [qlra | exact H2].
Qed.

Lemma max_rc_attained P : forall a,
  max_rc a P = a \/ exists b, In b P /\ max_rc a P = get_rc b.
Proof.
  induction P as [|b P IH]; intros a; [left; reflexivity|].
  unfold max_rc in *. cbn [fold_left].
  destruct (IH (py_max a (get_rc b))) as [H | (b' & Hb' & H)]; rewrite H.
  - unfold py_max. destruct (Qltb a (get_rc b)); [right; exists b; simpl|left]; auto.
  - right. exists b'. simpl. auto.
Qed.

Lemma sources_of_spec P : forall S0,
  NoDup S0 -> NoDup (sources_of S0 P) /\
  forall x, In x (sources_of S0 P) <->
    In x S0 \/ exists b, In b P /\ In x (get_list (data_sources b)).
Proof.
  induction P as [|b P IH]; intros S0 Hnd; simpl.
  - split; [assumption|]. intros x. split; [tauto|]. intros [H|(_ & [] & _)]; exact H.
  - destruct (set_update_spec (get_list (data_sources b)) S0 Hnd) as [Hnd1 Hin1].
    destruct (IH _ Hnd1) as [H1 H2]. split; [exact H1|].
    intros x. rewrite H2, Hin1. split.
    + intros [[H|H]|(b' & Hb' & H)]; auto; right; eauto.
    + intros [H|(b' & [<-|Hb'] & H)]; auto. right. eauto.
Qed.

Lemma tags_of_spec P : forall T0,
  NoDup T0 -> NoDup (tags_of T0 P).
Proof.
  induction P as [|b P IH]; intros T0 Hnd; simpl; [assumption|].
  apply IH, set_update_spec, Hnd.
Qed.

Lemma select_base_in g b : select_base g = Some b -> In b g.
Proof.
  intros H. destruct (SelectFacts.select_base_first_max g b H) as (pre & post & -> & _).
  apply in_app_iff. right. left. reflexivity.
Qed.

(** What a merged group record consists of. *)
Lemma merge_group_spec sl g m : merge_group sl g = Some m ->
  exists base, In base g /\ name m = name base /\
  data_sources m = Some (sl (sources_of [] g)) /\
  source_count m = Some (List.length (sources_of [] g)) /\
  tags m = Some (sl (tags_of [] g) ++ [aggregated_tag]) /\
  get_rc m = max_rc (get_rc base) g /\
  (exists c mt, contact m = Some c /\ metrics m = Some mt) /\
  (forall f : Contact -> option string,
     (forall c bc, f (merge_contact c bc) = f c \/ f (merge_contact c bc) = f bc) ->
     forall w, f (contact_of m) = Some w -> exists b, In b g /\ f (contact_of b) = Some w).
Proof.
  unfold merge_group.
  destruct (select_base g) as [base|] eqn:Eb; [|discriminate].
  destruct (fold_left merge_step g (Some (base, [], []))) as [[[merged S] T]|] eqn:Ef;
    [|discriminate].
  intros [= <-].
  destruct (merge_fold_spec g _ _ _ _ _ _ Ef)
    as (Hn & Hd & Hs & Ht & HS & HT & Hrc & Hcm & Hf).
  pose proof (select_base_in g base Eb) as Hin.
  exists base. subst S T. repeat split; auto.
  - destruct Hcm as (c & mt & H1 & H2); [intros ->; contradiction|].
    exists c, mt. auto.
  - intros f Hfm w Hw. unfold contact_of in Hw at 1. cbn [contact] in Hw.
    destruct (Hf f Hfm w Hw) as [H|H]; eauto.
Qed.

(** ** Deduplicator: the whole pass *)

Lemma merge_all_map sl K bs : forall out,
  (forall k, In k K -> filter (has_key k) bs <> []) ->
  merge_all sl (map (fun k => (k, filter (has_key k) bs)) K) = Some out ->
  Forall2 (fun k m => merge_group sl (filter (has_key k) bs) = Some m) K out.
Proof.
  induction K as [|k K IH]; intros out Hne H.
  - simpl in H. injection H as <-. constructor.
  - cbn [map merge_all] in H.
    destruct (filter (has_key k) bs) as [|b0 l] eqn:E.
    { exfalso. apply (Hne k); [left; reflexivity | exact E]. }
    destruct (merge_group sl (b0 :: l)) as [m|] eqn:Eg; [|discriminate].
    destruct (merge_all sl (map (fun k => (k, filter (has_key k) bs)) K)) as [ms|] eqn:Ea;
      [|discriminate].
    injection H as <-. constructor.
    + rewrite E. exact Eg.
    + apply IH; [|reflexivity]. intros k' Hk'. apply Hne. right. exact Hk'.
Qed.

Lemma group_nonempty bs k : In k (group_keys bs) -> filter (has_key k) bs <> [].
Proof.
  intros Hk. apply group_keys_spec in Hk. destruct Hk as (b & Hb & Hkb).
  intros E. assert (In b (filter (has_key k) bs)) as Hin
    by (apply filter_In; auto).
  rewrite E in Hin. contradiction.
Qed.

Lemma aggregate_spec sl bs out :
  aggregate_business_data sl bs = Some out ->
  Forall2 (fun k m => merge_group sl (filter (has_key k) bs) = Some m) (group_keys bs) out.
Proof.
  intros H. destruct bs as [|b bs'] eqn:Ebs.
  - simpl in H. injection H as <-. constructor.
  - rewrite <- Ebs in *. unfold aggregate_business_data in H. rewrite Ebs in H.
    rewrite <- Ebs, group_businesses_spec in H.
    apply merge_all_map; [apply group_nonempty | exact H].
Qed.

Lemma Forall2_in_r {A B} (R : A -> B -> Prop) l1 l2 y :
  Forall2 R l1 l2 -> In y l2 -> exists x, In x l1 /\ R x y.
Proof.
  induction 1 as [|x y' l1 l2 Hr _ IH]; [intros []|].
  intros [<- | Hy]; [exists x; simpl; auto|].
  destruct (IH Hy) as (x' & Hx' & Hr'). exists x'. simpl. auto.
Qed.

Lemma has_key_true k b : has_key k b = true -> has_name b = true /\ biz_key b = k.
Proof.
  unfold has_key. rewrite andb_true_iff, String.eqb_eq. auto.
Qed.

(** The merged record keeps the base's name, hence the group's key. *)
Lemma merged_key sl bs k m :
  In k (group_keys bs) -> merge_group sl (filter (has_key k) bs) = Some m ->
  has_name m = true /\ biz_key m = k.
Proof.
  intros _ H. destruct (merge_group_spec _ _ _ H) as (base & Hin & Hn & _).
  apply filter_In in Hin. destruct Hin as [_ Hk].
  apply has_key_true in Hk. destruct Hk as [Hhn Hbk].
  unfold has_name, biz_key, stripped_name in *. rewrite Hn. auto.
Qed.

Lemma Forall2_impl_in {A B} (R R' : A -> B -> Prop) l1 l2 :
  (forall x y, In x l1 -> R x y -> R' x y) -> Forall2 R l1 l2 -> Forall2 R' l1 l2.
Proof.
  intros Himp HF. induction HF as [|x y l1 l2 Hr _ IH]; constructor.
  - apply Himp; [left; reflexivity | exact Hr].
  - apply IH. intros x' y' Hx'. apply Himp. right. exact Hx'.
Qed.

Lemma aggregate_keys sl bs out :
  aggregate_business_data sl bs = Some out -> map biz_key out = group_keys bs.
Proof.
  intros H.
  assert (Forall2 (fun k m => biz_key m = k) (group_keys bs) out) as HF.
  { apply (Forall2_impl_in _ _ _ _ (fun k m Hk Hm => proj2 (merged_key sl bs k m Hk Hm))).
    apply aggregate_spec, H. }
  clear H. induction HF as [|k m K out' Hm _ IH]; simpl; congruence.
Qed.

Lemma aggregate_member sl bs out m :
  aggregate_business_data sl bs = Some out -> In m out ->
  has_name m = true /\ In (biz_key m) (group_keys bs) /\
  merge_group sl (filter (has_key (biz_key m)) bs) = Some m.
Proof.
  intros H Hm.
  destruct (Forall2_in_r _ _ _ _ (aggregate_spec sl bs out H) Hm) as (k & Hk & Hg).
  destruct (merged_key sl bs k m Hk Hg) as [Hn <-]. auto.
Qed.

(** ** Deduplicator: running on its own output *)

(** The record a second pass makes of a first-pass record: [data_sources]
    is listed again by [set_list], and the tag list is replaced by its
    distinct elements, listed by [set_list], followed by the aggregation
    tag. *)
Definition retag (sl : list string -> list string) (m : Biz) : Biz :=
  mkBiz (name m) (contact m) (metrics m) (Some (sl (get_list (data_sources m))))
        (source_count m)
        (Some (sl (set_update [] (get_list (tags m))) ++ [aggregated_tag])).

Lemma key_fold_distinct l : forall K,
  Forall (fun m => has_name m = true) l -> NoDup (K ++ map biz_key l) ->
  fold_left key_step l K = K ++ map biz_key l.
Proof.
  induction l as [|x l IH]; intros K Hn Hnd.
  - rewrite app_nil_r. reflexivity.
  - inversion Hn as [|? ? Hx Hl]; subst. simpl.
    unfold key_step at 2. rewrite Hx.
    destruct (existsb (String.eqb (biz_key x)) K) eqn:E.
    + apply existsb_eqb_In in E. exfalso.
      apply NoDup_remove_2 in Hnd. apply Hnd, in_app_iff. now left.
    + rewrite IH; [rewrite <- app_assoc; reflexivity | exact Hl |].
      rewrite <- app_assoc. exact Hnd.
Qed.

Lemma group_keys_distinct l :
  Forall (fun m => has_name m = true) l -> NoDup (map biz_key l) ->
  group_keys l = map biz_key l.
Proof. intros Hn Hnd. apply (key_fold_distinct l []); assumption. Qed.

Lemma filter_none {A} (f : A -> bool) l :
  (forall y, In y l -> f y = false) -> filter f l = [].
Proof.
  induction l as [|x l IH]; intros H; [reflexivity|]. simpl.
  rewrite H by (left; reflexivity). apply IH. intros y Hy. apply H. right. exact Hy.
Qed.

Lemma has_key_other k b : biz_key b <> k -> has_key k b = false.
Proof.
  intros Hne. unfold has_key. destruct (has_name b); [|reflexivity].
  apply String.eqb_neq. exact Hne.
Qed.

Lemma filter_distinct l m :
  Forall (fun m => has_name m = true) l -> NoDup (map biz_key l) -> In m l ->
  filter (has_key (biz_key m)) l = [m].
Proof.
  induction l as [|x l IH]; intros Hn Hnd Hm; [destruct Hm|].
  inversion Hn as [|? ? Hx Hl]; subst. simpl in Hnd.
  inversion Hnd as [|? ? Hnin Hnd']; subst. simpl.
  destruct Hm as [<- | Hm].
  - unfold has_key at 1. rewrite Hx, String.eqb_refl. simpl. f_equal.
    apply filter_none. intros y Hy. apply has_key_other.
    intros E. apply Hnin. rewrite <- E. apply in_map. exact Hy.
  - rewrite has_key_other; [apply IH; assumption|].
    intros E. apply Hnin. rewrite E. apply in_map. exact Hm.
Qed.

Lemma merge_group_single sl m c mt S :
  contact m = Some c -> metrics m = Some mt -> data_sources m = Some S ->
  NoDup S -> source_count m = Some (List.length S) ->
  merge_group sl [m] = Some (retag sl m).
Proof.
  intros Hc Hm HS Hnd Hsc.
  unfold merge_group. cbn [select_base fold_left].
  unfold merge_step. unfold contact_of, metrics_of. rewrite Hc, Hm.
  rewrite merge_contact_self, merge_metrics_self. rewrite HS. cbn [get_list].
  rewrite (set_update_nodup_self S Hnd).
  unfold retag. cbn [name contact metrics data_sources source_count tags].
  rewrite Hc, Hm, HS, Hsc. reflexivity.
Qed.

Lemma merge_all_singletons sl out :
  Forall (fun m => merge_group sl [m] = Some (retag sl m)) out ->
  merge_all sl (map (fun m => (biz_key m, [m])) out) = Some (map (retag sl) out).
Proof.
  induction 1 as [|m out Hm _ IH]; [reflexivity|].
  cbn [map merge_all]. rewrite Hm, IH. reflexivity.
Qed.

(** Facts about every first-pass record. *)
Lemma aggregate_record sl bs out m :
  aggregate_business_data sl bs = Some out -> In m out ->
  let g := filter (has_key (biz_key m)) bs in
  g <> [] /\ has_name m = true /\
  data_sources m = Some (sl (sources_of [] g)) /\
  source_count m = Some (List.length (sources_of [] g)) /\
  tags m = Some (sl (tags_of [] g) ++ [aggregated_tag]) /\
  (exists c mt, contact m = Some c /\ metrics m = Some mt) /\
  (exists base, In base g /\ get_rc m = max_rc (get_rc base) g) /\
  (forall f : Contact -> option string,
     (forall c bc, f (merge_contact c bc) = f c \/ f (merge_contact c bc) = f bc) ->
     forall w, f (contact_of m) = Some w -> exists b, In b g /\ f (contact_of b) = Some w).
Proof.
  intros H Hm g.
  destruct (aggregate_member sl bs out m H Hm) as (Hn & Hk & Hg).
  destruct (merge_group_spec _ _ _ Hg)
    as (base & Hb & _ & HS & Hsc & HT & Hrc & Hcm & Hf).
  repeat split; auto.
  - apply group_nonempty. exact Hk.
  - exists base. auto.
Qed.

Lemma aggregate_unfold sl l :
  aggregate_business_data sl l = merge_all sl (group_businesses l).
Proof. destruct l; reflexivity. Qed.

Lemma group_member bs k b : In b (filter (has_key k) bs) -> In b bs /\ has_key k b = true.
Proof. apply filter_In. Qed.

Lemma sources_nonempty g :
  g <> [] -> Forall (fun b => get_list (data_sources b) <> []) g -> sources_of [] g <> [].
Proof.
  intros Hg Hall. destruct g as [|b g']; [contradiction|].
  inversion Hall as [|? ? Hb _]; subst.
  destruct (get_list (data_sources b)) as [|x xs] eqn:E; [contradiction|].
  intros Hs. assert (In x (sources_of [] (b :: g'))) as Hx.
  { apply (proj2 (sources_of_spec (b :: g') [] (NoDup_nil _))). right.
    exists b. split; [left; reflexivity | rewrite E; left; reflexivity]. }
  rewrite Hs in Hx. destruct Hx.
Qed.

(** The lists a run's [set_list] makes keep their elements. *)
Lemma set_list_nodup sl S : set_order sl -> NoDup S -> NoDup (sl S).
Proof.
  intros Hsl Hnd. apply (Permutation_NoDup (Permutation_sym (Hsl S Hnd))), Hnd.
Qed.

Lemma set_list_in sl S x : set_order sl -> NoDup S -> (In x (sl S) <-> In x S).
Proof.
  intros Hsl Hnd. split; apply Permutation_in; [|apply Permutation_sym]; apply Hsl, Hnd.
Qed.

Lemma set_list_length sl S : set_order sl -> NoDup S -> List.length (sl S) = List.length S.
Proof. intros Hsl Hnd. apply Permutation_length, Hsl, Hnd. Qed.

(** A second pass over a first pass's output merges each record alone. *)
Lemma aggregate_twice sl bs out :
  set_order sl ->
  aggregate_business_data sl bs = Some out ->
  aggregate_business_data sl out = Some (map (retag sl) out).
Proof.
  intros Hsl H.
  assert (Forall (fun m => has_name m = true) out) as Hn.
  { apply Forall_forall. intros m Hm. apply (aggregate_record sl bs out m H Hm). }
  assert (NoDup (map biz_key out)) as Hnd.
  { rewrite (aggregate_keys sl bs out H). apply group_keys_spec. }
  assert (Forall (fun m => merge_group sl [m] = Some (retag sl m)) out) as Hs.
  { apply Forall_forall. intros m Hm.
    destruct (aggregate_record sl bs out m H Hm)
      as (_ & _ & HS & Hsc & _ & (c & mt & Hc & Hmt) & _).
    pose proof (sources_of_spec (filter (has_key (biz_key m)) bs) [] (NoDup_nil _))
      as [H0 _].
    apply (merge_group_single sl m c mt _ Hc Hmt HS);
      [apply set_list_nodup; assumption|].
    rewrite set_list_length by assumption. exact Hsc. }
  rewrite aggregate_unfold, group_businesses_spec, group_keys_distinct by assumption.
  rewrite map_map.
  rewrite (map_ext_in _ (fun m => (biz_key m, [m])) out)
    by (intros m Hm; rewrite filter_distinct by assumption; reflexivity).
  apply merge_all_singletons. exact Hs.
Qed.

Lemma Forall2_map_self {A B} (R : A -> B -> Prop) (f : A -> B) l :
  (forall x, In x l -> R x (f x)) -> Forall2 R l (map f l).
Proof.
  induction l as [|x l IH]; intros H; constructor.
  - apply H. left. reflexivity.
  - apply IH. intros y Hy. apply H. right. exact Hy.
Qed.

(** One order a run may list sets in: the order of first insertion. *)
Definition insertion_order (l : list string) : list string := l.

(** A concrete run: the same plumber as found on Google Maps and on Yelp. *)
Definition ex_google : Biz :=
  mkBiz (Some "Joe's Plumbing")
        (Some (mkContact (Some "joesplumbing.com") None None (Some true) None None))
        (Some (mkMetrics (Some (9#2)) (Some 120)))
        (Some ["google_maps"]) None None.

Definition ex_yelp : Biz :=
  mkBiz (Some "Joes Plumbing")
        (Some (mkContact None (Some "555-0100") None None (Some true) None))
        (Some (mkMetrics (Some 4) (Some 80)))
        (Some ["yelp"]) None (Some ["plumber"]).

Definition ex_input : list Biz := [ex_google; ex_yelp].

Definition ex_output : list Biz :=
  Eval vm_compute in
    match aggregate_business_data insertion_order ex_input with
    | Some o => o | None => [] end.

Definition ex_merged : Biz := Eval vm_compute in hd ex_google ex_output.

(** Claim C2: whatever order [list(set)] lists sets in, when every input
    record carries a non-empty [data_sources] list (as both producers, the
    Google Maps and the Yelp scans, set it), every merged record has a
    duplicate-free, non-empty [data_sources] list whose length is its
    [source_count]; each website, phone and email it holds is that of some
    input record of its group; and no two merged records share a
    normalized-name key. *)
Theorem dedup_merged_invariants sl bs out :
  set_order sl ->
  Forall (fun b => get_list (data_sources b) <> []) bs ->
  aggregate_business_data sl bs = Some out ->
  NoDup (map biz_key out) /\
  Forall (fun m =>
    (exists S, data_sources m = Some S /\ source_count m = Some (List.length S) /\
               NoDup S /\ S <> []) /\
    (forall w, website (contact_of m) = Some w -> exists b,
       In b bs /\ has_key (biz_key m) b = true /\ website (contact_of b) = Some w) /\
    (forall w, phone (contact_of m) = Some w -> exists b,
       In b bs /\ has_key (biz_key m) b = true /\ phone (contact_of b) = Some w) /\
    (forall w, email (contact_of m) = Some w -> exists b,
       In b bs /\ has_key (biz_key m) b = true /\ email (contact_of b) = Some w)) out.
Proof.
  intros Hsl Hds H. split.
  - rewrite (aggregate_keys sl bs out H). apply group_keys_spec.
  - apply Forall_forall. intros m Hm.
    destruct (aggregate_record sl bs out m H Hm)
      as (Hg & _ & HS & Hsc & _ & _ & _ & Hf).
    assert (forall f : Contact -> option string,
      (forall c bc, f (merge_contact c bc) = f c \/ f (merge_contact c bc) = f bc) ->
      forall w, f (contact_of m) = Some w -> exists b,
        In b bs /\ has_key (biz_key m) b = true /\ f (contact_of b) = Some w) as Hf'.
    { intros f Hfm w Hw. destruct (Hf f Hfm w Hw) as (b & Hb & Hbw).
      apply group_member in Hb. exists b. tauto. }
    set (S0 := sources_of [] (filter (has_key (biz_key m)) bs)) in *.
    assert (NoDup S0) as Hnd0 by (apply sources_of_spec; constructor).
    assert (S0 <> []) as Hne0.
    { apply sources_nonempty; [exact Hg|].
      apply Forall_forall. intros b Hb. apply group_member in Hb.
      rewrite Forall_forall in Hds. apply Hds, Hb. }
    repeat split.
    + exists (sl S0). repeat split; auto.
      * rewrite set_list_length by assumption. exact Hsc.
      * apply set_list_nodup; assumption.
      * intros E. apply Hne0. apply length_zero_iff_nil.
        rewrite <- (set_list_length sl S0 Hsl Hnd0), E. reflexivity.
    + apply Hf'. apply merge_contact_website.
    + apply Hf'. apply merge_contact_phone.
    + apply Hf'. apply merge_contact_email.
Qed.

Lemma dedup_merged_invariants_witness :
  set_order insertion_order /\
  Forall (fun b => get_list (data_sources b) <> []) ex_input /\
  NoDup (map biz_key ex_output) /\
  Forall (fun m =>
    (exists S, data_sources m = Some S /\ source_count m = Some (List.length S) /\
               NoDup S /\ S <> []) /\
    (forall w, website (contact_of m) = Some w -> exists b,
       In b ex_input /\ has_key (biz_key m) b = true /\ website (contact_of b) = Some w) /\
    (forall w, phone (contact_of m) = Some w -> exists b,
       In b ex_input /\ has_key (biz_key m) b = true /\ phone (contact_of b) = Some w) /\
    (forall w, email (contact_of m) = Some w -> exists b,
       In b ex_input /\ has_key (biz_key m) b = true /\ email (contact_of b) = Some w))
    ex_output.
Proof.
  assert (Ho : set_order insertion_order) by (intros l _; apply Permutation_refl).
  assert (Hd : Forall (fun b => get_list (data_sources b) <> []) ex_input)
    by (constructor; [discriminate | constructor; [discriminate | constructor]]).
  split; [exact Ho|]. split; [exact Hd|].
  apply (dedup_merged_invariants insertion_order ex_input ex_output Ho Hd).
  vm_compute. reflexivity.
Defined.

(** Claim C5: each merged record's review count is the largest review count
    among the input records of its group (so one of them, not their sum),
    whatever order [list(set)] lists sets in. *)
Theorem dedup_review_count_max sl bs out m :
  aggregate_business_data sl bs = Some out -> In m out ->
  filter (has_key (biz_key m)) bs <> [] /\
  Forall (fun b => get_rc b <= get_rc m) (filter (has_key (biz_key m)) bs) /\
  Exists (fun b => get_rc m = get_rc b) (filter (has_key (biz_key m)) bs).
Proof.
  intros H Hm.
  destruct (aggregate_record sl bs out m H Hm)
    as (Hg & _ & _ & _ & _ & _ & (base & Hb & Hrc) & _).
  destruct (max_rc_ge (filter (has_key (biz_key m)) bs) (get_rc base)) as [_ Hge].
  split; [exact Hg|]. split.
  - rewrite Hrc. exact Hge.
  - apply Exists_exists. rewrite Hrc.
    destruct (max_rc_attained (filter (has_key (biz_key m)) bs) (get_rc base))
      as [E | (b & Hb' & E)]; eauto.
Qed.

Lemma dedup_review_count_max_witness :
  aggregate_business_data insertion_order ex_input = Some ex_output /\
  In ex_merged ex_output /\
  filter (has_key (biz_key ex_merged)) ex_input <> [] /\
  Forall (fun b => get_rc b <= get_rc ex_merged) (filter (has_key (biz_key ex_merged)) ex_input) /\
  Exists (fun b => get_rc ex_merged = get_rc b) (filter (has_key (biz_key ex_merged)) ex_input).
Proof.
  assert (H1 : aggregate_business_data insertion_order ex_input = Some ex_output)
    by (vm_compute; reflexivity).
  assert (H2 : In ex_merged ex_output) by (vm_compute; left; reflexivity).
  split; [exact H1|]. split; [exact H2|].
  apply (dedup_review_count_max insertion_order ex_input ex_output ex_merged H1 H2).
Defined.

(** Counterexample to claim C3: with sets listed in insertion order, a
    second pass over the output of the first does not return it unchanged;
    the aggregation tag is appended again. *)
Lemma dedup_second_pass_differs :
  aggregate_business_data insertion_order ex_input = Some ex_output /\
  aggregate_business_data insertion_order ex_output <> Some ex_output.
Proof.
  split; [vm_compute; reflexivity|].
  vm_compute. intros H. discriminate H.
Qed.

(** Claim C3 (amended): whatever order [list(set)] lists sets in (the same
    order in both passes, as in one process), a second pass over the first
    pass's output returns one record for each first-pass record, in the same
    order, with the same name, contact, metrics and source_count; its
    data_sources holds the same sources, possibly in another order; and its
    tags are the distinct first-pass tags, in some order and once each,
    followed by one more aggregation tag. *)
Theorem dedup_second_pass_retags sl bs out :
  set_order sl ->
  aggregate_business_data sl bs = Some out ->
  exists out2, aggregate_business_data sl out = Some out2 /\
  Forall2 (fun m m2 =>
    name m2 = name m /\ contact m2 = contact m /\ metrics m2 = metrics m /\
    source_count m2 = source_count m /\
    (exists S S2, data_sources m = Some S /\ data_sources m2 = Some S2 /\
                  Permutation S2 S) /\
    (exists T T2, tags m = Some T /\ tags m2 = Some (T2 ++ [aggregated_tag]) /\
                  NoDup T2 /\ forall t, In t T2 <-> In t T)) out out2.
Proof.
  intros Hsl H. exists (map (retag sl) out).
  split; [apply (aggregate_twice sl bs out); assumption|].
  apply Forall2_map_self. intros m Hm.
  destruct (aggregate_record sl bs out m H Hm) as (_ & _ & HS & _ & HT & _).
  set (g := filter (has_key (biz_key m)) bs) in *.
  assert (NoDup (sources_of [] g)) as Hnd by (apply sources_of_spec; constructor).
  unfold retag. cbn [name contact metrics source_count data_sources tags].
  repeat split.
  - exists (sl (sources_of [] g)), (sl (get_list (data_sources m))).
    rewrite HS. cbn [get_list]. repeat split.
    apply Hsl, set_list_nodup; assumption.
  - set (T := get_list (tags m)).
    assert (tags m = Some T) as ET by (unfold T; rewrite HT; reflexivity).
    destruct (set_update_spec T [] (NoDup_nil _)) as [HndT HinT].
    exists T, (sl (set_update [] T)). repeat split.
    + exact ET.
    + apply set_list_nodup; assumption.
    + intros Ht. apply (set_list_in sl _ t Hsl HndT), HinT in Ht.
      destruct Ht as [[]|Ht]. exact Ht.
    + intros Ht. apply (set_list_in sl _ t Hsl HndT), HinT. right. exact Ht.
Qed.

Lemma dedup_second_pass_retags_witness :
  set_order insertion_order /\
  aggregate_business_data insertion_order ex_input = Some ex_output /\
  exists out2, aggregate_business_data insertion_order ex_output = Some out2 /\
  Forall2 (fun m m2 =>
    name m2 = name m /\ contact m2 = contact m /\ metrics m2 = metrics m /\
    source_count m2 = source_count m /\
    (exists S S2, data_sources m = Some S /\ data_sources m2 = Some S2 /\
                  Permutation S2 S) /\
    (exists T T2, tags m = Some T /\ tags m2 = Some (T2 ++ [aggregated_tag]) /\
                  NoDup T2 /\ forall t, In t T2 <-> In t T)) ex_output out2.
Proof.
  assert (Ho : set_order insertion_order) by (intros l _; apply Permutation_refl).
  assert (H1 : aggregate_business_data insertion_order ex_input = Some ex_output)
    by (vm_compute; reflexivity).
  split; [exact Ho|]. split; [exact H1|].
  apply (dedup_second_pass_retags insertion_order ex_input ex_output Ho H1).
Defined.

End MergeFacts.

(* ------------------------------------------------------------------ *)
(** ** String helpers: case folding *)
Module StringFacts.
Import PyStr Relevance.

Lemma lower_char_idem (c : ascii) : lower_char (lower_char c) = lower_char c.
Proof. destruct c as [[] [] [] [] [] [] [] []]; reflexivity. Qed.

Lemma lower_idem (s : string) : lower (lower s) = lower s.
Proof. induction s as [|c s IH]; simpl; [reflexivity|]. rewrite lower_char_idem, IH. reflexivity. Qed.

Lemma is_nonempty_lower (s : string) : is_nonempty (lower s) = is_nonempty s.
Proof. destruct s; reflexivity. Qed.

End StringFacts.

(* ------------------------------------------------------------------ *)
(** ** The two relevance filters and the industry-name mapping *)
Module FilterFacts.
Import PyStr Relevance StringFacts.

(** Extra X1: outside the HVAC industry, the working router's filter is the
    intelligence.py filter plus the exclusion list: it accepts a name exactly
    when the intelligence.py filter accepts it and (for a non-empty name and
    industry) no exclusion keyword occurs in the lower-cased name. *)
Theorem working_filter_is_intel_filter_minus_exclusions n i :
  lower i <> "hvac" ->
  Relevance._is_relevant_business n i =
  IntelRelevance._is_relevant_business n i &&
  negb (is_nonempty n && is_nonempty i &&
        existsb (fun k => is_nonempty k && contains k (lower n))
                (exclusion_keywords (lower i))).
Proof.
  intros Hh. unfold Relevance._is_relevant_business, IntelRelevance._is_relevant_business.
  destruct (is_nonempty n), (is_nonempty i); cbn [negb orb andb]; try reflexivity.
  destruct (existsb (fun k => is_nonempty k && contains k (lower n))
                    (exclusion_keywords (lower i))); cbn [negb andb].
  - rewrite andb_false_r. reflexivity.
  - rewrite andb_true_r.
    assert (String.eqb (lower i) "hvac" = false) as E by (apply String.eqb_neq; exact Hh).
    rewrite E. destruct (industry_keywords (lower i)); [reflexivity|].
    destruct (existsb _ _); reflexivity.
Qed.

Lemma working_filter_is_intel_filter_minus_exclusions_witness :
  Relevance._is_relevant_business "First Church Plumbing" "plumbing" =
  IntelRelevance._is_relevant_business "First Church Plumbing" "plumbing" &&
  negb (is_nonempty "First Church Plumbing" && is_nonempty "plumbing" &&
        existsb (fun k => is_nonempty k && contains k (lower "First Church Plumbing"))
                (exclusion_keywords (lower "plumbing"))).
Proof.
  apply working_filter_is_intel_filter_minus_exclusions.
  intros H. vm_compute in H. discriminate H.
Defined.

(** Extra X2: both relevance filters ignore ASCII letter case in the
    business name and in the industry. *)
Theorem relevance_filters_case_insensitive n i :
  Relevance._is_relevant_business n i = Relevance._is_relevant_business (lower n) (lower i) /\
  IntelRelevance._is_relevant_business n i =
  IntelRelevance._is_relevant_business (lower n) (lower i).
Proof.
  unfold Relevance._is_relevant_business, IntelRelevance._is_relevant_business.
  rewrite !is_nonempty_lower, !lower_idem. split; reflexivity.
Qed.

End FilterFacts.

Module IndustryMapFacts.
Import PyStr Relevance IndustryMap.

Lemma standard_facts r :
  In r standard_industries ->
  is_nonempty r = true /\ mem r standard_industries = true /\
  (String.eqb (upper r) "HVAC" = true -> r = "HVAC").
Proof.
  intros H.
  repeat (destruct H as [<- | H];
          [split; [reflexivity | split; [reflexivity | intros E; vm_compute in E;
                                          first [reflexivity | discriminate E]]] |]).
  destruct H.
Qed.

Lemma lookup_mapping_in k m v : lookup_mapping k m = Some v -> In (k, v) m.
Proof.
  induction m as [|[k' v'] m IH]; simpl; [discriminate|].
  destruct (String.eqb k k') eqn:E.
  - intros [= <-]. apply String.eqb_eq in E. subst. left. reflexivity.
  - intros H. right. apply IH, H.
Qed.

Lemma mapping_values k v :
  In (k, v) industry_mapping -> exists x, v = [x] /\ x <> EmptyString.
Proof.
  intros H.
  repeat (destruct H as [H | H];
          [injection H as _ <-; eexists; split; [reflexivity | discriminate] |]).
  destruct H.
Qed.

Lemma first_mapped_value types v :
  first_mapped types = Some v ->
  hd EmptyString v <> EmptyString /\ In (hd EmptyString v) mapping_values_all.
Proof.
  induction types as [|t ts IH]; cbn [first_mapped]; [discriminate|].
  destruct (lookup_mapping t industry_mapping) as [v'|] eqn:E; [|exact IH].
  intros [= <-]. apply lookup_mapping_in in E.
  destruct (mapping_values _ _ E) as (x & -> & Hx). cbn [hd]. split; [exact Hx|].
  apply in_flat_map. exists (t, [x]). split; [exact E | left; reflexivity].
Qed.

(** Extra X3: a requested industry from the standard list is returned as it
    is, whatever the Google types and Yelp categories. *)
Theorem map_industry_standard_request google yelp r :
  In r standard_industries -> _map_to_industry_name google yelp r = r.
Proof.
  intros H. destruct (standard_facts r H) as (Hne & Hmem & Hhv).
  unfold _map_to_industry_name. rewrite Hne, Hmem.
  destruct (String.eqb (upper r) "HVAC") eqn:E; cbn [andb].
  - rewrite (Hhv eq_refl). destruct (existsb _ _); [reflexivity|].
    destruct (direct_match _ _); reflexivity.
  - destruct (direct_match _ _); reflexivity.
Qed.

Lemma map_industry_standard_request_witness :
  _map_to_industry_name ["plumber"] ["Auto Repair"] "Restaurant" = "Restaurant".
Proof. apply map_industry_standard_request. simpl. tauto. Defined.

(** Extra X4: the industry name is never empty: it is the requested
    industry, a value of the mapping table, or "General Business". *)
Theorem map_industry_result_range google yelp r :
  let res := _map_to_industry_name google yelp r in
  res <> EmptyString /\
  (res = r \/ In res mapping_values_all \/ res = "General Business").
Proof.
  intros res. subst res. unfold _map_to_industry_name.
  assert (In "HVAC" mapping_values_all) as Hhvac by (simpl; tauto).
  assert (forall x, x = r -> is_nonempty r = true ->
            x <> EmptyString /\ (x = r \/ In x mapping_values_all \/ x = "General Business"))
    as Hreq.
  { intros x -> Hn. split; [intros E; rewrite E in Hn; discriminate | left; reflexivity]. }
  assert (let fb := match first_mapped (all_types google yelp) with
                    | Some v => hd EmptyString v
                    | None => if is_nonempty r then r else "General Business"
                    end in
          fb <> EmptyString /\
          (fb = r \/ In fb mapping_values_all \/ fb = "General Business")) as Hfb.
  { cbv zeta. destruct (first_mapped (all_types google yelp)) as [v|] eqn:E.
    - destruct (first_mapped_value _ _ E) as [H1 H2]. auto.
    - destruct (is_nonempty r) eqn:Hn; [apply Hreq; auto|].
      split; [discriminate | auto]. }
  destruct (is_nonempty r) eqn:Hn; [|exact Hfb].
  destruct (String.eqb (upper r) "HVAC" && _); [split; [discriminate | auto]|].
  destruct (direct_match r _); [apply Hreq; auto|].
  destruct (mem r standard_industries); [apply Hreq; auto | exact Hfb].
Qed.

End IndustryMapFacts.

(* ------------------------------------------------------------------ *)
(** ** Lead enrichment *)
Module EnrichFacts.
Import PyStr Relevance Enrich.
Local Open Scope Q_scope.

Ltac qlra := Lqa.lra.

Lemma enrich_email_name f b : e_name (enrich_email f b) = e_name b.
Proof.
  unfold enrich_email. destruct (_ && _); [|reflexivity].
  destruct (f _) as [e|]; [destruct (is_nonempty e)|]; reflexivity.
Qed.

Lemma enrich_email_metrics f b : e_metrics (enrich_email f b) = e_metrics b.
Proof.
  unfold enrich_email. destruct (_ && _); [|reflexivity].
  destruct (f _) as [e|]; [destruct (is_nonempty e)|]; reflexivity.
Qed.

Lemma enrich_contact f b :
  e_contact (enrich_business_data f b) = e_contact (enrich_email f b).
Proof.
  unfold enrich_business_data. destruct (e_metrics (enrich_email f b)); reflexivity.
Qed.

Lemma enrich_metrics_eq f b :
  e_metrics (enrich_business_data f b) = option_map enrich_metrics (e_metrics b).
Proof.
  unfold enrich_business_data. rewrite <- (enrich_email_metrics f b).
  destruct (e_metrics (enrich_email f b)) eqn:E; [reflexivity|exact E].
Qed.

Lemma py_int_nonneg x : 0 <= x -> py_int x = Qfloor x.
Proof.
  intros H. unfold py_int. apply Qle_bool_iff in H. rewrite H. reflexivity.
Qed.

Lemma py_int_bounds (a b : Z) x :
  0 <= x -> inject_Z a <= x -> x <= inject_Z b -> (a <= py_int x <= b)%Z.
Proof.
  intros H0 Ha Hb. rewrite py_int_nonneg by exact H0.
  pose proof (Qfloor_le x) as Hf. pose proof (Qlt_floor x) as Hl.
  split.
  - destruct (Z_le_gt_dec a (Qfloor x)) as [|Hgt]; [assumption|].
    exfalso. assert (Qfloor x + 1 <= a)%Z as Hz by lia.
    rewrite Zle_Qle in Hz. qlra.
  - rewrite Zle_Qle. qlra.
Qed.

Lemma estimated_revenue_bounds r (rc : Z) :
  0 <= r <= 5 -> (0 <= rc)%Z ->
  (250000 <= estimated_revenue_of r rc <= 750000)%Z.
Proof.
  intros [Hr0 Hr5] Hrc. unfold estimated_revenue_of.
  assert (py_max 1 (r / 5) = 1) as Hmax.
  { unfold py_max. assert (r / 5 <= 1) as H.
    { apply Qle_shift_div_r; qlra. }
    apply Qle_bool_iff in H. rewrite H. reflexivity. }
  assert (0 <= inject_Z rc) as Hq by (change 0 with (inject_Z 0); rewrite <- Zle_Qle; exact Hrc).
  set (m := py_min 3 (1 + inject_Z rc / 100)).
  assert (1 <= m <= 3) as Hm.
  { unfold m, py_min. assert (0 <= inject_Z rc / 100) by (apply Qle_shift_div_l; qlra).
    destruct (Qle_bool 3 (1 + inject_Z rc / 100)) eqn:E; simpl.
    - split; qlra.
    - assert (~ 3 <= 1 + inject_Z rc / 100) as Hn
        by (intros Hc; apply Qle_bool_iff in Hc; congruence).
      apply Qnot_le_lt in Hn. split; qlra. }
  rewrite Hmax. clearbody m.
  apply py_int_bounds; unfold inject_Z; qlra.
Qed.

(** Extra X5: enrichment adds metrics exactly when the record has a metrics
    dict: a record without one comes back without one (the [KeyError] is
    swallowed), and for a record with one, whatever the rating and review
    count, the lead score lies in [20, 100], the years in business in
    [2, 20], the employee count in [3, 25] and the number of locations is 1
    or 2. *)
Theorem enrich_metric_ranges f b :
  (e_metrics b = None <-> e_metrics (enrich_business_data f b) = None) /\
  match e_metrics (enrich_business_data f b) with
  | None => True
  | Some m =>
    exists lead years employees locations,
      em_lead_score m = Some lead /\ (20 <= lead <= 100)%Z /\
      em_years_in_business m = Some years /\ (2 <= years <= 20)%Z /\
      em_employee_count m = Some employees /\ (3 <= employees <= 25)%Z /\
      em_num_locations m = Some locations /\ (locations = 1 \/ locations = 2)%Z
  end.
Proof.
  rewrite enrich_metrics_eq. destruct (e_metrics b) as [m|].
  2: { split; [split; reflexivity | exact I]. }
  split; [split; discriminate|].
  cbn [option_map]. unfold enrich_metrics. cbn zeta.
  do 4 eexists. repeat split; try reflexivity; try lia.
  destruct (review_count_of m <? 100)%Z; [left|right]; reflexivity.
Qed.

(** Extra X6: for a record with a metrics dict whose rating is in [0, 5]
    and whose review count is not negative, the estimated revenue lies in
    [250000, 750000], min_revenue <= estimated_revenue <= max_revenue, and
    the owner age lies in [35, 69]. *)
Theorem enrich_revenue_ranges f b m :
  e_metrics b = Some m -> 0 <= rating_of m <= 5 -> (0 <= review_count_of m)%Z ->
  exists m' est lo hi age,
    e_metrics (enrich_business_data f b) = Some m' /\
    em_estimated_revenue m' = Some est /\ (250000 <= est <= 750000)%Z /\
    em_min_revenue m' = Some lo /\ em_max_revenue m' = Some hi /\
    (lo <= est <= hi)%Z /\
    em_owner_age m' = Some age /\ (35 <= age <= 69)%Z.
Proof.
  intros Hm Hr Hrc. rewrite enrich_metrics_eq, Hm. cbn [option_map].
  pose proof (estimated_revenue_bounds _ _ Hr Hrc) as He.
  set (est := estimated_revenue_of (rating_of m) (review_count_of m)) in *.
  assert (0 <= inject_Z est) as He0
    by (change 0 with (inject_Z 0); rewrite <- Zle_Qle; lia).
  unfold enrich_metrics. cbn zeta. fold est.
  do 5 eexists. split; [reflexivity|]. split; [reflexivity|]. split; [exact He|].
  split; [reflexivity|]. split; [reflexivity|]. split.
  - split.
    + assert (0 <= py_int (inject_Z est * (7 # 10)) <= est)%Z; [|lia].
      apply py_int_bounds; change (inject_Z 0) with 0; qlra.
    + rewrite py_int_nonneg by qlra.
      destruct (Z_le_gt_dec est (Qfloor (inject_Z est * (15 # 10)))) as [|Hgt];
        [assumption|].
      exfalso. pose proof (Qlt_floor (inject_Z est * (15 # 10))) as Hl.
      assert (Qfloor (inject_Z est * (15 # 10)) + 1 <= est)%Z as Hz by lia.
      rewrite Zle_Qle, inject_Z_plus in Hz. rewrite inject_Z_plus in Hl. qlra.
  - split; [reflexivity|].
    pose proof (Z.mod_pos_bound (review_count_of m) 20 ltac:(lia)) as Hmod.
    assert (0 <= inject_Z (review_count_of m mod 20) <= 19) as Hq.
    { change 0 with (inject_Z 0). change 19 with (inject_Z 19).
      rewrite <- !Zle_Qle. lia. }
    assert (0 <= py_int (inject_Z (review_count_of m mod 20) + rating_of m * 3) <= 34)%Z;
      [apply py_int_bounds; change (inject_Z 0) with 0;
       change (inject_Z 34) with 34; qlra | lia].
Qed.

Lemma enrich_revenue_ranges_witness :
  exists m' est lo hi age,
    e_metrics (enrich_business_data (fun _ => None)
      (mkEBiz (Some "Joe's Plumbing") None
        (Some (mkEMetrics (Some (9 # 2)) (Some 120%Z)
                          None None None None None None None None)))) = Some m' /\
    em_estimated_revenue m' = Some est /\ (250000 <= est <= 750000)%Z /\
    em_min_revenue m' = Some lo /\ em_max_revenue m' = Some hi /\
    (lo <= est <= hi)%Z /\
    em_owner_age m' = Some age /\ (35 <= age <= 69)%Z.
Proof.
  apply (enrich_revenue_ranges _ _ (mkEMetrics (Some (9 # 2)) (Some 120%Z)
                                       None None None None None None None None)).
  - reflexivity.
  - unfold rating_of. simpl. split; discriminate.
  - unfold review_count_of. simpl. lia.
Defined.

(** Extra X7: enrichment keeps the name and the website, never replaces an
    e-mail that is already present, and the only e-mail it ever writes is
    the scraper's answer for the record's own website. *)
Theorem enrich_contact_safety f b :
  e_name (enrich_business_data f b) = e_name b /\
  option_map e_website (e_contact (enrich_business_data f b)) =
    option_map e_website (e_contact b) /\
  (match e_contact b with Some c => truthy (e_email c) = true | None => False end ->
   e_contact (enrich_business_data f b) = e_contact b) /\
  (forall c', e_contact (enrich_business_data f b) = Some c' ->
   exists c, e_contact b = Some c /\
     (e_email c' = e_email c \/ f (get_str (e_website c)) = e_email c')).
Proof.
  rewrite enrich_contact. split.
  { unfold enrich_business_data. rewrite <- (enrich_email_name f b).
    destruct (e_metrics (enrich_email f b)); reflexivity. }
  unfold enrich_email.
  destruct (e_contact b) as [c|] eqn:Ec.
  - destruct (is_nonempty (get_str (e_website c)) && negb (truthy (e_email c))) eqn:Eg.
    + destruct (f (get_str (e_website c))) as [e|] eqn:Ef;
        [destruct (is_nonempty e) eqn:Ee|].
      * cbn [e_contact option_map e_website]. split; [reflexivity|]. split.
        { intros Ht. rewrite Ht, andb_false_r in Eg. discriminate. }
        intros c' [= <-]. exists c. split; [reflexivity|]. right. exact Ef.
      * rewrite Ec. split; [reflexivity|]. split; [auto|].
        intros c' Hc. exists c. split; [reflexivity|]. left. congruence.
      * rewrite Ec. split; [reflexivity|]. split; [auto|].
        intros c' Hc. exists c. split; [reflexivity|]. left. congruence.
    + rewrite Ec. split; [reflexivity|]. split; [auto|].
      intros c' Hc. exists c. split; [reflexivity|]. left. congruence.
  - cbn [get_str e_website empty_econtact is_nonempty andb]. rewrite Ec.
    split; [reflexivity|]. split; [intros []|]. discriminate.
Qed.

End EnrichFacts.

(* ------------------------------------------------------------------ *)
(** ** Market concentration: bounds, labels and the callers of the HHI *)
Module ConcentrationFacts.
Import PyStr Analytics HHIFacts MarketAnalysis.
Local Open Scope list_scope.
Local Open Scope Q_scope.

Ltac qlra := Lqa.lra.
Ltac qnra := Lqa.nra.

Lemma Qltb_of_lt x y : x < y -> Qltb x y = true.
Proof. apply Qltb_iff. Qed.

Lemma Qltb_of_le x y : y <= x -> Qltb x y = false.
Proof. apply Qltb_false. Qed.

(** The fields of the result on a non-empty list. *)
Lemma calc_nonempty bs proxy :
  bs <> [] ->
  let h := hhi_score (calculate_hhi_index bs proxy) in
  market_concentration (calculate_hhi_index bs proxy) = concentration_level h /\
  fragmentation_level (calculate_hhi_index bs proxy) = Some (fragmentation_of h) /\
  rollup_opportunity (calculate_hhi_index bs proxy) = Some (rollup_of h).
Proof. intros Hne. destruct bs; [congruence|]. repeat split. Qed.

Lemma length_revenue_shares bs :
  (List.length (revenue_shares bs) <= List.length bs)%nat.
Proof.
  induction bs as [|b bs IH]; simpl; [lia|].
  destruct (Qltb 0 (revenue_of b)); simpl; lia.
Qed.

(** Under every proxy, without any assumption on the data, the total is
    the sum of the collected values and there are at most as many values
    as businesses. *)
Lemma shares_and_total_sum proxy bs :
  bs <> [] ->
  let st := shares_and_total proxy bs in
  snd st == Qsum (fst st) /\ (List.length (fst st) <= List.length bs)%nat.
Proof.
  intros Hne. unfold shares_and_total.
  destruct (String.eqb proxy "revenue").
  { split; [reflexivity | apply length_revenue_shares]. }
  destruct (String.eqb proxy "reviews_weighted").
  { split; [reflexivity | simpl; rewrite length_map; lia]. }
  destruct (String.eqb proxy "chain_independent").
  { split; [reflexivity | simpl; rewrite length_map; lia]. }
  pose proof (len_q_pos bs Hne) as Hn. simpl fst; simpl snd. split.
  - rewrite Qsum_const with (c := 1 / len_q bs) by apply Forall_repeat_eq.
    rewrite len_q_repeat. fold (len_q bs). field; intro Hc; qlra.
  - rewrite repeat_length. lia.
Qed.

(** The percentages always sum to 1. *)
Lemma percentages_sum_one bs shares total :
  bs <> [] -> total == Qsum shares ->
  (List.length shares <= List.length bs)%nat ->
  let p := share_percentages bs (shares, total) in
  Qsum p == 1 /\ (List.length p <= List.length bs)%nat.
Proof.
  intros Hne Ht Hl. simpl.
  pose proof (len_q_pos bs Hne) as Hn.
  destruct (Qltb 0 total) eqn:E.
  - apply Qltb_iff in E. split.
    + rewrite Qsum_map_div by qlra. rewrite <- Ht. field; intro Hc; qlra.
    + rewrite length_map. exact Hl.
  - split.
    + rewrite Qsum_const with (c := 1 / len_q bs) by apply Forall_repeat_eq.
      unfold len_q at 1. rewrite repeat_length. fold (len_q bs). field; intro Hc; qlra.
    + rewrite repeat_length. lia.
Qed.

Lemma percentages_of_calc proxy bs :
  bs <> [] ->
  let p := share_percentages bs (shares_and_total proxy bs) in
  Qsum p == 1 /\ (List.length p <= List.length bs)%nat.
Proof.
  intros Hne. pose proof (shares_and_total_sum proxy bs Hne) as [Ht Hl].
  destruct (shares_and_total proxy bs) as [shares total]. simpl in Ht, Hl.
  apply percentages_sum_one; assumption.
Qed.

(** [sum((x - c)^2) >= 0], expanded. *)
Lemma sumsq_deviation l c :
  2 * c * Qsum l - len_q l * (c * c) <= Qsum (map (fun s => s * s) l).
Proof.
  induction l as [|a l IH].
  - unfold len_q. simpl Qsum. simpl map.
    setoid_replace (2 * c * 0 - inject_Z (Z.of_nat (List.length (@nil Q))) * (c * c))
      with 0 by (simpl; ring).
    simpl. qlra.
  - rewrite len_q_succ. simpl map. rewrite !Qsum_cons.
    assert (0 <= (a - c) * (a - c)) by (generalize (a - c); intros x; qnra).
    set (S := Qsum l) in *. set (T := Qsum (map (fun s => s * s) l)) in *.
    set (k := len_q l) in *.
    setoid_replace (2 * c * (a + S) - (k + 1) * (c * c))
      with ((2 * c * S - k * (c * c)) + (2 * c * a - c * c)) by ring.
    setoid_replace (a * a + T) with (T + ((a - c) * (a - c) + (2 * c * a - c * c)))
      by ring.
    qlra.
Qed.

Lemma hhi_lower_bound_aux proxy bs :
  bs <> [] -> 10000 <= hhi_score (calculate_hhi_index bs proxy) * len_q bs.
Proof.
  intros Hne. rewrite hhi_score_def by assumption.
  pose proof (len_q_pos bs Hne) as Hn.
  destruct (percentages_of_calc proxy bs Hne) as [Hs Hl].
  set (p := share_percentages bs (shares_and_total proxy bs)) in *.
  assert (len_q p <= len_q bs) as Hk by (unfold len_q; rewrite <- Zle_Qle; lia).
  pose proof (len_q_nonneg p) as Hk0.
  set (n := len_q bs) in *. set (k := len_q p) in *.
  set (u := 1 / n).
  assert (u * n == 1) as Hu by (unfold u; field; intro Hc; qlra).
  assert (0 < u) as Hu0 by (unfold u; apply Qlt_shift_div_l; qlra).
  pose proof (sumsq_deviation p u) as Hd. rewrite Hs in Hd. fold k in Hd.
  clearbody u k n.
  set (T := Qsum (map (fun s => s * s) p)) in *.
  assert (k * (u * u) <= n * (u * u)) as Hku.
  { apply Qmult_le_compat_r; [exact Hk | qnra]. }
  assert (n * (u * u) == u) as Hnu.
  { setoid_replace (n * (u * u)) with ((u * n) * u) by ring. rewrite Hu. ring. }
  assert (u <= T) as HuT by qlra.
  assert (u * n <= T * n) as H2 by (apply Qmult_le_compat_r; qlra).
  setoid_replace (T * 10000 * n) with ((T * n) * 10000) by ring. qlra.
Qed.

Lemma count_bound_of_hhi proxy bs (t : Q) (c : Z) :
  bs <> [] -> hhi_score (calculate_hhi_index bs proxy) < t ->
  t * inject_Z c <= 10000 -> (c < Z.of_nat (List.length bs))%Z.
Proof.
  intros Hne Hh Ht. pose proof (hhi_lower_bound_aux proxy bs Hne) as Hb.
  pose proof (len_q_pos bs Hne) as Hn.
  destruct (Z_lt_le_dec c (Z.of_nat (List.length bs))) as [|Hge]; [assumption|].
  exfalso. rewrite Zle_Qle in Hge. fold (len_q bs) in Hge.
  set (h := hhi_score (calculate_hhi_index bs proxy)) in *.
  set (n := len_q bs) in *.
  assert (h * n < t * n) as H1 by (apply Qmult_lt_compat_r; assumption).
  assert (0 < t) as Ht0.
  { destruct (Qlt_le_dec 0 t) as [|Ht0]; [assumption|].
    assert (t * n <= 0 * n) by (apply Qmult_le_compat_r; qlra). qlra. }
  assert (t * n <= t * inject_Z c) as H2.
  { rewrite !(Qmult_comm t). apply Qmult_le_compat_r; qlra. }
  qlra.
Qed.

Lemma fold_max_bounds l m :
  m <= fold_left max_step l m /\
  Forall (fun y => y <= fold_left max_step l m) l.
Proof.
  revert m. induction l as [|x l IH]; intros m; simpl.
  - split; [qlra | constructor].
  - destruct (IH (max_step m x)) as [H1 H2].
    assert (m <= max_step m x /\ x <= max_step m x) as [Hm Hx].
    { unfold max_step. destruct (Qltb m x) eqn:E.
      - apply Qltb_iff in E. split; qlra.
      - apply Qltb_false in E. split; qlra. }
    split; [qlra|]. constructor; [qlra | exact H2].
Qed.

Lemma fold_max_mem l m :
  fold_left max_step l m = m \/ In (fold_left max_step l m) l.
Proof.
  revert m. induction l as [|x l IH]; intros m; simpl; [left; reflexivity|].
  destruct (IH (max_step m x)) as [H|H]; [|right; right; exact H].
  rewrite H. unfold max_step. destruct (Qltb m x); [right; left; reflexivity | left; reflexivity].
Qed.

Lemma sumsq_le_max l M :
  Forall (fun x => 0 <= x) l -> Forall (fun x => x <= M) l ->
  Qsum (map (fun s => s * s) l) <= M * Qsum l.
Proof.
  intros H0 HM. induction l as [|x l IH]; simpl; [qlra|].
  inversion H0; inversion HM; subst.
  specialize (IH ltac:(assumption) ltac:(assumption)).
  assert (x * x <= M * x) by (apply Qmult_le_compat_r; assumption). qlra.
Qed.

Lemma sumsq_ge_mem l y :
  In y l -> y * y <= Qsum (map (fun s => s * s) l).
Proof.
  induction l as [|x l IH]; simpl; [intros []|]. intros [->|Hy].
  - pose proof (sumsq_nonneg l). qlra.
  - specialize (IH Hy). assert (0 <= x * x) by qnra. qlra.
Qed.

Lemma revenue_shares_app l1 l2 :
  revenue_shares (l1 ++ l2) = revenue_shares l1 ++ revenue_shares l2.
Proof.
  induction l1 as [|b l1 IH]; simpl; [reflexivity|].
  destruct (Qltb 0 (revenue_of b)); rewrite IH; reflexivity.
Qed.

Lemma revenue_shares_sum_pos l b :
  In b l -> 0 < revenue_of b -> 0 < Qsum (revenue_shares l).
Proof.
  intros Hb Hp. induction l as [|x l IH]; [destruct Hb|]. simpl.
  pose proof (Qsum_nonneg _ (revenue_shares_pos l)) as H0.
  destruct Hb as [->|Hb].
  - rewrite (Qltb_of_lt _ _ Hp). simpl. qlra.
  - specialize (IH Hb). destruct (Qltb 0 (revenue_of x)) eqn:E; [|exact IH].
    apply Qltb_iff in E. simpl. qlra.
Qed.

Lemma calc_unfold bs proxy :
  bs <> [] ->
  calculate_hhi_index bs proxy =
  let pcts := share_percentages bs (shares_and_total proxy bs) in
  let hhi := Qsum (map (fun s => s * s) pcts) in
  mkHHI (hhi * 10000) (Some hhi) (concentration_level (hhi * 10000))
        (Some (fragmentation_of (hhi * 10000)))
        (Some (antitrust_concern_of (hhi * 10000)))
        (Some (rollup_of (hhi * 10000))) (Some proxy) (Some (List.length bs))
        (Some (py_max_list pcts)) (Some (Qsum (firstn 3 (sorted_desc pcts))))
        (Some true).
Proof. intros Hne. destruct bs; [congruence | reflexivity]. Qed.

Lemma rollup_excellent_good proxy bs r :
  rollup_opportunity (calculate_hhi_index bs proxy) = Some r ->
  bs <> [] /\
  (r = "Excellent" -> hhi_score (calculate_hhi_index bs proxy) < 1000) /\
  (r = "Good" -> hhi_score (calculate_hhi_index bs proxy) < 1800).
Proof.
  intros Hr. destruct bs as [|b bs']; [discriminate|].
  split; [discriminate|].
  destruct (calc_nonempty (b :: bs') proxy ltac:(discriminate)) as (_ & _ & Hro).
  assert (rollup_of (hhi_score (calculate_hhi_index (b :: bs') proxy)) = r) as Hr'
    by congruence.
  subst r. clear Hr Hro.
  generalize (hhi_score (calculate_hhi_index (b :: bs') proxy)) as h. intros h.
  unfold rollup_of.
  destruct (Qltb h 1000) eqn:E1.
  { apply Qltb_iff in E1. split; intros _; qlra. }
  destruct (Qltb h 1800) eqn:E2.
  { apply Qltb_iff in E2. split; intros Hc; [discriminate Hc | exact E2]. }
  destruct (Qltb h 2500); split; intros Hc; discriminate Hc.
Qed.

Lemma opt_is_some o s : MarketAnalysis.opt_is o s = true -> o = Some s.
Proof.
  destruct o as [x|]; simpl; [|discriminate].
  intros H. apply String.eqb_eq in H. subst. reflexivity.
Qed.

Lemma market_opportunity_cases d r :
  (MarketAnalysis.market_opportunity d r = "Exceptional" -> r = Some "Excellent") /\
  (MarketAnalysis.market_opportunity d r = "High" ->
     r = Some "Excellent" \/ r = Some "Good") /\
  (r = None -> MarketAnalysis.market_opportunity d r = "Limited").
Proof.
  split; [|split].
  3: { intros ->. unfold MarketAnalysis.market_opportunity. cbn [MarketAnalysis.opt_is orb].
       rewrite !andb_false_r. reflexivity. }
  all: unfold MarketAnalysis.market_opportunity;
    destruct (MarketAnalysis.opt_is r "Excellent") eqn:Ee;
    destruct (MarketAnalysis.opt_is r "Good") eqn:Eg;
    destruct (MarketAnalysis.opt_is r "Moderate");
    destruct (MarketAnalysis.opt_is d "Very Low");
    destruct (MarketAnalysis.opt_is d "Low");
    destruct (MarketAnalysis.opt_is d "Moderate");
    cbn [andb orb]; intros Hc;
    first [ discriminate Hc
          | apply opt_is_some; exact Ee
          | left; apply opt_is_some; exact Ee
          | right; apply opt_is_some; exact Eg ].
Qed.

Lemma length_with_revenue (estimate : Business -> Q) bs :
  List.length (map (fun b => MarketAnalysis.with_revenue b (estimate b)) bs) =
  List.length bs.
Proof. apply length_map. Qed.

(** Extra X9: the per-business [market_fragmentation] entry of the fast
    scan is the HHI of a one-element list, so for every business, whatever
    its revenue, reviews and rating, it reports an HHI of 10000,
    "Consolidated", "Highly Concentrated" and a "Limited" roll-up
    opportunity. *)
Theorem per_business_fragmentation_constant name rev reviews rating :
  let '(h, frag, conc, rollup) :=
    FastScan.business_fragmentation name rev reviews rating in
  h == 10000 /\ frag = Some "Consolidated" /\ conc = "Highly Concentrated" /\
  rollup = Some "Limited".
Proof.
  unfold FastScan.business_fragmentation. cbv zeta.
  set (bs := [mkBusiness (Some name) (Some rev) (Some reviews) None (Some rating)]).
  pose proof (hhi_single "revenue" (mkBusiness (Some name) (Some rev) (Some reviews)
                                                 None (Some rating))) as Hh.
  fold bs in Hh.
  destruct (calc_nonempty bs "revenue" ltac:(discriminate)) as (Hc & Hf & Hr).
  rewrite Hc, Hf, Hr.
  set (h := hhi_score (calculate_hhi_index bs "revenue")) in *.
  unfold concentration_level, fragmentation_of, rollup_of.
  rewrite (Qltb_of_le h 1500), (Qltb_of_le h 2500), (Qltb_of_le h 1000),
          (Qltb_of_le h 1800) by qlra.
  repeat split; assumption.
Qed.

(** Extra X10: for every non-empty list of businesses and every proxy,
    with no assumption on the data, [hhi_score >= 10000 / N] for N
    businesses; so a market of at most six businesses is never reported
    as "Unconcentrated". *)
Theorem hhi_lower_bound proxy bs :
  bs <> [] ->
  10000 / len_q bs <= hhi_score (calculate_hhi_index bs proxy) /\
  ((List.length bs <= 6)%nat ->
   market_concentration (calculate_hhi_index bs proxy) <> "Unconcentrated").
Proof.
  intros Hne. pose proof (hhi_lower_bound_aux proxy bs Hne) as Hb.
  pose proof (len_q_pos bs Hne) as Hn. split.
  - apply Qle_shift_div_r; [exact Hn | exact Hb].
  - intros H6. destruct (calc_nonempty bs proxy Hne) as (Hc & _ & _). rewrite Hc.
    set (h := hhi_score (calculate_hhi_index bs proxy)) in *.
    assert (len_q bs <= 6) as Hn6.
    { unfold len_q. change 6 with (inject_Z 6). rewrite <- Zle_Qle. lia. }
    assert (1500 <= h) as Hh.
    { destruct (Qlt_le_dec h 1500) as [Hl|]; [|assumption].
      assert (h * len_q bs < 1500 * len_q bs) by (apply Qmult_lt_compat_r; assumption).
      qlra. }
    unfold concentration_level. rewrite (Qltb_of_le h 1500 Hh).
    destruct (Qltb h 2500); discriminate.
Qed.

Lemma hhi_lower_bound_witness :
  let bs := [mkBusiness None (Some 5) None None None] in
  bs <> [] /\
  10000 / len_q bs <= hhi_score (calculate_hhi_index bs "revenue") /\
  ((List.length bs <= 6)%nat ->
   market_concentration (calculate_hhi_index bs "revenue") <> "Unconcentrated").
Proof.
  cbv zeta. split; [discriminate|]. apply hhi_lower_bound. discriminate.
Defined.

(** Extra X11: the three labels of [calculate_hhi_index] always agree: the
    result is "No Data" with no fragmentation or roll-up label exactly for
    the empty list, and otherwise one of five label triples, fixed by the
    score bands [< 1000], [1000, 1500), [1500, 1800), [1800, 2500) and
    [>= 2500]. *)
Theorem hhi_labels_consistent bs proxy :
  let r := calculate_hhi_index bs proxy in
  let h := hhi_score r in
  let labels := (market_concentration r, fragmentation_level r, rollup_opportunity r) in
  (bs = [] /\ h = 0 /\ labels = ("No Data", None, None)) \/
  (bs <> [] /\ h < 1000 /\
   labels = ("Unconcentrated", Some "Highly Fragmented", Some "Excellent")) \/
  (bs <> [] /\ 1000 <= h < 1500 /\
   labels = ("Unconcentrated", Some "Highly Fragmented", Some "Good")) \/
  (bs <> [] /\ 1500 <= h < 1800 /\
   labels = ("Moderately Concentrated", Some "Moderately Fragmented", Some "Good")) \/
  (bs <> [] /\ 1800 <= h < 2500 /\
   labels = ("Moderately Concentrated", Some "Moderately Fragmented", Some "Moderate")) \/
  (bs <> [] /\ 2500 <= h /\
   labels = ("Highly Concentrated", Some "Consolidated", Some "Limited")).
Proof.
  cbv zeta. destruct bs as [|b bs'] eqn:Ebs.
  { left. repeat split. }
  right. assert (bs <> []) as Hne by (rewrite Ebs; discriminate).
  rewrite <- Ebs.
  destruct (calc_nonempty bs proxy Hne) as (Hc & Hf & Hr). rewrite Hc, Hf, Hr.
  set (h := hhi_score (calculate_hhi_index bs proxy)).
  unfold concentration_level, fragmentation_of, rollup_of.
  destruct (Qlt_le_dec h 1000) as [H1|H1].
  { left. rewrite !Qltb_of_lt by qlra. auto. }
  right. rewrite (Qltb_of_le h 1000 H1).
  destruct (Qlt_le_dec h 1500) as [H2|H2].
  { left. rewrite !Qltb_of_lt by qlra. auto. }
  right. rewrite (Qltb_of_le h 1500 H2).
  destruct (Qlt_le_dec h 1800) as [H3|H3].
  { left. rewrite !Qltb_of_lt by qlra. auto. }
  right. rewrite (Qltb_of_le h 1800 H3).
  destruct (Qlt_le_dec h 2500) as [H4|H4].
  { left. rewrite !Qltb_of_lt by qlra. auto. }
  right. rewrite (Qltb_of_le h 2500 H4). auto.
Qed.

(** The HHI result with its [total_businesses] entry replaced. *)
Definition with_total_businesses (n : nat) (r : HHIResult) : HHIResult :=
  mkHHI (hhi_score r) (hhi_normalized r) (market_concentration r)
        (fragmentation_level r) (antitrust_concern r) (rollup_opportunity r)
        (Analytics.market_share_proxy r) (Some n) (Analytics.largest_market_share r)
        (top_3_market_share r) (doj_methodology r).

(** Extra X12: under the revenue proxy a business without a positive
    [estimated_revenue], inserted anywhere in the list, changes nothing in
    the result but the [total_businesses] count, as long as some other
    business has a positive revenue: score, normalized score, labels,
    largest and top-3 shares are the same. *)
Theorem revenue_hhi_ignores_nonpositive pre b post :
  revenue_of b <= 0 ->
  (exists b', In b' (pre ++ post) /\ 0 < revenue_of b') ->
  total_businesses (calculate_hhi_index (pre ++ post) "revenue") =
    Some (List.length (pre ++ post)) /\
  calculate_hhi_index (pre ++ b :: post) "revenue" =
  with_total_businesses (S (List.length (pre ++ post)))
    (calculate_hhi_index (pre ++ post) "revenue").
Proof.
  intros Hb [b' [Hin Hpos]].
  assert (pre ++ post <> []) as Hne1 by (intros He; rewrite He in Hin; destruct Hin).
  assert (pre ++ b :: post <> []) as Hne2 by (destruct pre; discriminate).
  rewrite (calc_unfold _ _ Hne1), (calc_unfold _ _ Hne2).
  split; [reflexivity|].
  assert (revenue_shares (pre ++ b :: post) = revenue_shares (pre ++ post)) as Hs.
  { rewrite !revenue_shares_app. simpl. rewrite (Qltb_of_le _ _ Hb). reflexivity. }
  pose proof (revenue_shares_sum_pos _ _ Hin Hpos) as Ht.
  unfold shares_and_total. cbn [String.eqb Ascii.eqb Bool.eqb].
  rewrite Hs. unfold share_percentages. rewrite (Qltb_of_lt _ _ Ht).
  unfold with_total_businesses. cbv zeta.
  cbn [hhi_score hhi_normalized market_concentration fragmentation_level
       antitrust_concern rollup_opportunity Analytics.market_share_proxy
       Analytics.largest_market_share top_3_market_share doj_methodology].
  rewrite !length_app. cbn [List.length]. rewrite Nat.add_succ_r. reflexivity.
Qed.

Lemma revenue_hhi_ignores_nonpositive_witness :
  (revenue_of (mkBusiness None (Some 0) None None None) <= 0 /\
   exists b', In b' ([] ++ [mkBusiness None (Some 100) None None None]) /\
              0 < revenue_of b') /\
  total_businesses
    (calculate_hhi_index ([] ++ [mkBusiness None (Some 100) None None None]) "revenue") =
    Some (List.length ([] ++ [mkBusiness None (Some 100) None None None])) /\
  calculate_hhi_index ([] ++ mkBusiness None (Some 0) None None None
                          :: [mkBusiness None (Some 100) None None None]) "revenue" =
  with_total_businesses
    (S (List.length ([] ++ [mkBusiness None (Some 100) None None None])))
    (calculate_hhi_index ([] ++ [mkBusiness None (Some 100) None None None]) "revenue").
Proof.
  assert (Hb : revenue_of (mkBusiness None (Some 0) None None None) <= 0)
    by (unfold revenue_of; simpl; qlra).
  assert (Hx : exists b', In b' ([] ++ [mkBusiness None (Some 100) None None None]) /\
                          0 < revenue_of b')
    by (exists (mkBusiness None (Some 100) None None None);
        split; [left; reflexivity | unfold revenue_of; simpl; qlra]).
  split; [split; assumption|].
  apply revenue_hhi_ignores_nonpositive; assumption.
Defined.

(** Extra X13: for a non-empty list of well-formed businesses, the
    reported [largest_market_share] m bounds the score on both sides:
    [m^2 * 10000 <= hhi_score <= m * 10000]. *)
Theorem hhi_largest_share_bounds proxy bs :
  bs <> [] -> Forall wf_business bs ->
  let m := MarketAnalysis.largest_market_share bs proxy in
  let h := hhi_score (calculate_hhi_index bs proxy) in
  m * m * 10000 <= h <= m * 10000.
Proof.
  intros Hne Hwf. cbv zeta. rewrite hhi_score_def by assumption.
  unfold MarketAnalysis.largest_market_share.
  pose proof (shares_and_total_ok proxy bs Hne Hwf) as [Hs Ht].
  destruct (shares_and_total proxy bs) as [shares total]. simpl in Hs, Ht.
  destruct (percentages_distribution bs shares total Hne Hs Ht) as [Hp Hsum].
  destruct (share_percentages bs (shares, total)) as [|x xs] eqn:Ep.
  { simpl in Hsum. qlra. }
  set (M := fold_left max_step xs x).
  destruct (fold_max_bounds xs x) as [Hx Hxs]. fold M in Hx, Hxs.
  assert (Forall (fun y => y <= M) (x :: xs)) as HM by (constructor; assumption).
  pose proof (sumsq_le_max _ M Hp HM) as Hup. rewrite Hsum in Hup.
  assert (In M (x :: xs)) as Hin.
  { destruct (fold_max_mem xs x) as [H|H]; fold M in H;
      [rewrite H; left; reflexivity | right; exact H]. }
  pose proof (sumsq_ge_mem _ _ Hin) as Hlo.
  set (T := Qsum (map (fun s => s * s) (x :: xs))) in *.
  split; qlra.
Qed.

Lemma hhi_largest_share_bounds_witness :
  let bs := [mkBusiness None (Some 3) None None None;
             mkBusiness None (Some 1) None None None] in
  (bs <> [] /\ Forall wf_business bs) /\
  let m := MarketAnalysis.largest_market_share bs "revenue" in
  let h := hhi_score (calculate_hhi_index bs "revenue") in
  m * m * 10000 <= h <= m * 10000.
Proof.
  cbv zeta.
  assert (Hw : Forall wf_business [mkBusiness None (Some 3) None None None;
                                   mkBusiness None (Some 1) None None None]).
  { repeat constructor; unfold get_q; simpl; qlra. }
  split; [split; [discriminate | exact Hw]|].
  apply (hhi_largest_share_bounds "revenue"); [discriminate | exact Hw].
Defined.

(** Extra X14: in [comprehensive_market_analysis], whatever the revenue
    model, the location and the cache, the opportunity "Exceptional" needs
    at least 11 businesses and "High" at least 6, and an empty business
    list always gives "Limited". *)
Theorem market_opportunity_needs_businesses estimate bs location industry st :
  let opp := fst (fst (fst (MarketAnalysis.comprehensive_market_analysis
                              estimate bs location industry st))) in
  (opp = "Exceptional" -> (11 <= List.length bs)%nat) /\
  (opp = "High" -> (6 <= List.length bs)%nat) /\
  (bs = [] -> opp = "Limited").
Proof.
  cbv zeta. unfold MarketAnalysis.comprehensive_market_analysis.
  destruct (Density.calculate_business_density _ _ _ _ _) as [d st'].
  cbn [fst].
  set (bs' := map (fun b => MarketAnalysis.with_revenue b (estimate b)) bs).
  assert (List.length bs' = List.length bs) as Hlen by apply length_with_revenue.
  set (r := rollup_opportunity (calculate_hhi_index bs' "revenue")).
  destruct (market_opportunity_cases (Some (Density.density_level d)) r)
    as (Hex & Hhi & Hnone).
  split; [|split].
  - intros Hopp. specialize (Hex Hopp).
    destruct (rollup_excellent_good "revenue" bs' "Excellent" Hex) as (Hne & H1 & _).
    pose proof (count_bound_of_hhi "revenue" bs' 1000 10 Hne (H1 eq_refl)
                  ltac:(change (inject_Z 10) with 10; qlra)) as Hc.
    rewrite Hlen in Hc. lia.
  - intros Hopp. specialize (Hhi Hopp).
    assert (bs' <> [] /\ hhi_score (calculate_hhi_index bs' "revenue") < 1800)
      as [Hne H1].
    { destruct Hhi as [E|E].
      - destruct (rollup_excellent_good "revenue" bs' _ E) as (Hne & H1 & _).
        split; [exact Hne|]. specialize (H1 eq_refl). qlra.
      - destruct (rollup_excellent_good "revenue" bs' _ E) as (Hne & _ & H2).
        split; [exact Hne | exact (H2 eq_refl)]. }
    pose proof (count_bound_of_hhi "revenue" bs' 1800 5 Hne H1
                  ltac:(change (inject_Z 5) with 5; qlra)) as Hc.
    rewrite Hlen in Hc. lia.
  - intros ->. apply Hnone. reflexivity.
Qed.

End ConcentrationFacts.

(* ------------------------------------------------------------------ *)
(** ** Census data and business density *)
Module CensusFacts.
Import PyStr Analytics Density.
Local Open Scope list_scope.
Local Open Scope Q_scope.

Ltac qlra := Lqa.lra.

Lemma prefix_refl s : prefix s s = true.
Proof.
  induction s as [|c s IH]; simpl; [reflexivity|].
  destruct (Ascii.ascii_dec c c); [exact IH | congruence].
Qed.

Lemma contains_refl s : contains s s = true.
Proof. destruct s; cbn [contains]; rewrite prefix_refl; reflexivity. Qed.

Lemma lookup_in k m v : lookup k m = Some v -> In (k, v) m.
Proof.
  induction m as [|[k' v'] m IH]; simpl; [discriminate|].
  destruct (String.eqb k k') eqn:E.
  - intros [= <-]. apply String.eqb_eq in E. subst. left. reflexivity.
  - intros H. right. apply IH, H.
Qed.

Lemma partial_match_some key m v :
  partial_match key m = Some v ->
  exists k, In (k, v) m /\ (contains k key || contains key k) = true.
Proof.
  induction m as [|[k v'] m IH]; simpl; [discriminate|].
  destruct (contains k key || contains key k) eqn:E.
  - intros [= <-]. exists k. split; [left; reflexivity | exact E].
  - intros H. destruct (IH H) as (k' & Hin & Hk). exists k'. auto.
Qed.

Lemma partial_match_none key m :
  partial_match key m = None ->
  forall k v, In (k, v) m -> (contains k key || contains key k) = false.
Proof.
  induction m as [|[k v'] m IH]; simpl; [intros _ k v []|].
  destruct (contains k key || contains key k) eqn:E; [discriminate|].
  intros H k' v [Heq|Hin]; [injection Heq as -> ->; exact E | exact (IH H k' v Hin)].
Qed.

Lemma generate_state st :
  let (d, st') := _generate_realistic_census_estimate st in
  population_cache st' = population_cache st /\ rng st' = rng st /\
  rng_pos st' = (rng_pos st + 4)%nat.
Proof.
  unfold _generate_realistic_census_estimate, draw. simpl. repeat split. lia.
Qed.

Lemma generate_eq st :
  _generate_realistic_census_estimate st =
  (mkCensus (randint 75000 450000 (rng st (rng_pos st)))
            (inject_Z (Qfloor (randint 75000 450000 (rng st (rng_pos st)) /
                               uniform (22 # 10) (28 # 10) (rng st (S (rng_pos st)))))),
   mkState (population_cache st) (rng st) (S (S (S (S (rng_pos st)))))).
Proof. reflexivity. Qed.

Lemma randint_bounds (lo hi : Z) u :
  (lo <= hi)%Z -> 0 <= u < 1 ->
  inject_Z lo <= randint lo hi u <= inject_Z hi.
Proof.
  intros Hlh [Hu0 Hu1]. unfold randint.
  set (N := inject_Z (hi - lo + 1)).
  assert (1 <= N) as HN by (unfold N; change 1 with (inject_Z 1); rewrite <- Zle_Qle; lia).
  assert (0 <= u * N) as H0 by (apply Qmult_le_0_compat; qlra).
  assert (u * N < N) as H1.
  { setoid_replace N with (1 * N) at 2 by ring. apply Qmult_lt_compat_r; qlra. }
  pose proof (Qfloor_resp_le 0 (u * N) H0) as Hf0.
  change (Qfloor 0) with 0%Z in Hf0.
  pose proof (Qfloor_le (u * N)) as Hf1.
  assert (Qfloor (u * N) < hi - lo + 1)%Z as Hf2.
  { rewrite Zlt_Qlt. fold N. qlra. }
  split; rewrite <- Zle_Qle; lia.
Qed.

(** The density result with its echoed [location] entry replaced. *)
Definition with_location (loc : string) (r : DensityResult) : DensityResult :=
  mkDensity (business_density r) (density_type r) (density_level r)
            (market_saturation r) (businesses_count r) (population_base r) loc
            (Density.industry r) (census_data_source r).

Lemma fetch_lower location st :
  _fetch_census_acs_data (lower location) st = _fetch_census_acs_data location st.
Proof.
  unfold _fetch_census_acs_data, _get_realistic_census_data.
  rewrite StringFacts.lower_idem. reflexivity.
Qed.

(** Extra X15: the density calculator ignores the case of the location:
    [location] and [location.lower()] give the same service state and the
    same result, except that the ['location'] entry echoes the argument as
    given (the cache key and the metro lookup both lower-case it). *)
Theorem density_location_case_insensitive count location industry use_households st :
  let (r1, st1) := calculate_business_density count location industry use_households st in
  let (r2, st2) :=
    calculate_business_density count (lower location) industry use_households st in
  st1 = st2 /\ Density.location r1 = location /\
  Density.location r2 = lower location /\ r1 = with_location location r2.
Proof.
  unfold calculate_business_density. rewrite fetch_lower.
  destruct (_fetch_census_acs_data location st) as [d st']. cbv zeta.
  repeat split; reflexivity.
Qed.

Lemma lookup_first k m v :
  lookup k m = Some v ->
  exists pre post, m = pre ++ (k, v) :: post /\
                   forall k' v', In (k', v') pre -> k' <> k.
Proof.
  induction m as [|[k0 v0] m IH]; simpl; [discriminate|].
  destruct (String.eqb k k0) eqn:E.
  - intros [= <-]. apply String.eqb_eq in E. subst.
    exists [], m. split; [reflexivity | intros _ _ []].
  - intros H. destruct (IH H) as (pre & post & Hm & Hpre).
    exists ((k0, v0) :: pre), post. split; [rewrite Hm; reflexivity|].
    intros k' v' [Heq | Hin]; [|exact (Hpre k' v' Hin)].
    injection Heq as <- <-. apply String.eqb_neq in E. congruence.
Qed.

Lemma lookup_none_notin k m : lookup k m = None -> forall v, ~ In (k, v) m.
Proof.
  induction m as [|[k0 v0] m IH]; simpl; [intros _ _ []|].
  destruct (String.eqb k k0) eqn:E; [discriminate|].
  intros H v [Heq | Hin]; [|exact (IH H v Hin)].
  injection Heq as <- <-. rewrite String.eqb_refl in E. discriminate.
Qed.

Lemma partial_match_first key m v :
  partial_match key m = Some v ->
  exists pre k post, m = pre ++ (k, v) :: post /\
    (contains k key || contains key k) = true /\
    forall k' v', In (k', v') pre -> (contains k' key || contains key k') = false.
Proof.
  induction m as [|[k0 v0] m IH]; simpl; [discriminate|].
  destruct (contains k0 key || contains key k0) eqn:E.
  - intros [= <-]. exists [], k0, m. split; [reflexivity|]. split; [exact E|].
    intros _ _ [].
  - intros H. destruct (IH H) as (pre & k & post & Hm & Hk & Hpre).
    exists ((k0, v0) :: pre), k, post. split; [rewrite Hm; reflexivity|].
    split; [exact Hk|].
    intros k' v' [Heq | Hin]; [injection Heq as <- <-; exact E | exact (Hpre k' v' Hin)].
Qed.

(** Extra X16: for a location not yet in the cache, the census data comes
    from the metro table with no random draw: the entry whose key is the
    lower-cased location, or else the first entry, in table order, whose key
    contains the lower-cased location or is contained in it.  Only when no
    metro key matches either way is it generated, with exactly four draws.
    Either way the data is cached under the lower-cased location and the
    random stream is kept. *)
Theorem census_source location st :
  lookup (lower location) (population_cache st) = None ->
  let key := lower location in
  let (d, st') := _fetch_census_acs_data location st in
  population_cache st' = (key, d) :: population_cache st /\
  rng st' = rng st /\
  ((exists pre post, metro_census_data = pre ++ (key, d) :: post /\
      (forall k' v', In (k', v') pre -> k' <> key) /\
      rng_pos st' = rng_pos st) \/
   ((forall v, ~ In (key, v) metro_census_data) /\
    (exists pre k post, metro_census_data = pre ++ (k, d) :: post /\
      (contains k key || contains key k) = true /\
      (forall k' v', In (k', v') pre -> (contains k' key || contains key k') = false)) /\
    rng_pos st' = rng_pos st) \/
   ((forall k v, In (k, v) metro_census_data -> (contains k key || contains key k) = false) /\
    d = fst (_generate_realistic_census_estimate st) /\
    rng_pos st' = (rng_pos st + 4)%nat)).
Proof.
  intros Hc. cbv zeta. unfold _fetch_census_acs_data. rewrite Hc.
  unfold _get_realistic_census_data.
  destruct (lookup (lower location) metro_census_data) as [d|] eqn:E1.
  { cbn [population_cache rng rng_pos]. split; [reflexivity|]. split; [reflexivity|].
    left. destruct (lookup_first _ _ _ E1) as (pre & post & Hm & Hpre).
    exists pre, post. auto. }
  destruct (partial_match (lower location) metro_census_data) as [d|] eqn:E2.
  { cbn [population_cache rng rng_pos]. split; [reflexivity|]. split; [reflexivity|].
    right. left. split; [apply lookup_none_notin, E1|].
    split; [apply partial_match_first, E2 | reflexivity]. }
  pose proof (generate_state st) as Hg.
  destruct (_generate_realistic_census_estimate st) as [d st'] eqn:E3.
  destruct Hg as (Hg1 & Hg2 & Hg3).
  cbn [population_cache rng rng_pos]. rewrite Hg1.
  split; [reflexivity|]. split; [exact Hg2|].
  right. right. split; [apply partial_match_none, E2|]. split; [reflexivity | exact Hg3].
Qed.

Lemma census_source_witness :
  lookup (lower "San") (population_cache DensityFacts.fresh_service) = None /\
  let key := lower "San" in
  let (d, st') := _fetch_census_acs_data "San" DensityFacts.fresh_service in
  population_cache st' = (key, d) :: population_cache DensityFacts.fresh_service /\
  rng st' = rng DensityFacts.fresh_service /\
  ((exists pre post, metro_census_data = pre ++ (key, d) :: post /\
      (forall k' v', In (k', v') pre -> k' <> key) /\
      rng_pos st' = rng_pos DensityFacts.fresh_service) \/
   ((forall v, ~ In (key, v) metro_census_data) /\
    (exists pre k post, metro_census_data = pre ++ (k, d) :: post /\
      (contains k key || contains key k) = true /\
      (forall k' v', In (k', v') pre -> (contains k' key || contains key k') = false)) /\
    rng_pos st' = rng_pos DensityFacts.fresh_service) \/
   ((forall k v, In (k, v) metro_census_data -> (contains k key || contains key k) = false) /\
    d = fst (_generate_realistic_census_estimate DensityFacts.fresh_service) /\
    rng_pos st' = (rng_pos DensityFacts.fresh_service + 4)%nat)).
Proof.
  split; [reflexivity|]. apply census_source. reflexivity.
Defined.

(** Extra X17: when the random source gives values in [0, 1), the
    generated estimate has a population between 75000 and 450000 and a
    household count [h] with [population / 2.8 - 1 < h <= population / 2.2];
    the generator makes exactly four draws and changes nothing else. *)
Theorem census_estimate_ranges st :
  (forall n, 0 <= rng st n < 1) ->
  let (d, st') := _generate_realistic_census_estimate st in
  75000 <= population d <= 450000 /\
  population d / (28 # 10) - 1 < total_households d <= population d / (22 # 10) /\
  population_cache st' = population_cache st /\ rng st' = rng st /\
  rng_pos st' = (rng_pos st + 4)%nat.
Proof.
  intros Hr. rewrite generate_eq. cbn [population total_households population_cache rng rng_pos].
  split; [|split; [|split; [reflexivity | split; [reflexivity | lia]]]].
  - pose proof (randint_bounds 75000 450000 _ ltac:(lia) (Hr (rng_pos st))) as H.
    exact H.
  - pose proof (randint_bounds 75000 450000 _ ltac:(lia) (Hr (rng_pos st))) as Hp.
    pose proof (Hr (S (rng_pos st))) as Hu.
    set (pop := randint 75000 450000 (rng st (rng_pos st))) in *.
    set (u := rng st (S (rng_pos st))) in *.
    set (pph := uniform (22 # 10) (28 # 10) u).
    assert (22 # 10 <= pph < 28 # 10) as Hpph by (unfold pph, uniform; qlra).
    change (inject_Z 75000) with 75000 in Hp. change (inject_Z 450000) with 450000 in Hp.
    clearbody pop pph.
    set (x := pop / pph).
    assert (x * pph == pop) as Hx by (unfold x; field; intro Hc; qlra).
    assert (0 <= x) as Hx0 by (unfold x; apply Qle_shift_div_l; qlra).
    clearbody x.
    pose proof (Qfloor_le x) as Hf1. pose proof (Qlt_floor x) as Hf2.
    rewrite inject_Z_plus in Hf2. change (inject_Z 1) with 1 in Hf2.
    assert (x * (22 # 10) <= x * pph) as Hlo by (rewrite !(Qmult_comm x); apply Qmult_le_compat_r; qlra).
    assert (x * pph < x * (28 # 10) \/ x == 0) as Hhi.
    { destruct (Qeq_dec x 0) as [|Hnz]; [right; assumption|left].
      rewrite !(Qmult_comm x). apply Qmult_lt_compat_r; [|qlra].
      destruct (Qle_lt_or_eq _ _ Hx0) as [|Heq]; [assumption|].
      exfalso. apply Hnz. rewrite Heq. reflexivity. }
    set (y := pop / (28 # 10)). set (z := pop / (22 # 10)).
    assert (y * (28 # 10) == pop) as Hy by (unfold y; field).
    assert (z * (22 # 10) == pop) as Hz by (unfold z; field).
    clearbody y z. split.
    + destruct Hhi as [Hhi|Hhi]; [qlra|].
      rewrite Hhi, Qmult_0_l in Hx. qlra.
    + qlra.
Qed.

Lemma census_estimate_ranges_witness :
  (forall n, 0 <= rng DensityFacts.fresh_service n < 1) /\
  let (d, st') := _generate_realistic_census_estimate DensityFacts.fresh_service in
  75000 <= population d <= 450000 /\
  population d / (28 # 10) - 1 < total_households d <= population d / (22 # 10) /\
  population_cache st' = population_cache DensityFacts.fresh_service /\
  rng st' = rng DensityFacts.fresh_service /\
  rng_pos st' = (rng_pos DensityFacts.fresh_service + 4)%nat.
Proof.
  assert (H : forall n, 0 <= rng DensityFacts.fresh_service n < 1)
    by (intros n; unfold DensityFacts.fresh_service; simpl; split; qlra).
  split; [exact H|]. apply census_estimate_ranges. exact H.
Defined.

(** Extra X18: with the same service state, the density is never negative
    and grows with the business count, while the population base and the
    resulting service state do not depend on the count. *)
Theorem density_monotone_count c1 c2 location industry use_households st :
  (c1 <= c2)%nat ->
  let (r1, st1) := calculate_business_density c1 location industry use_households st in
  let (r2, st2) := calculate_business_density c2 location industry use_households st in
  st1 = st2 /\ population_base r1 = population_base r2 /\
  0 <= business_density r1 <= business_density r2.
Proof.
  intros Hc. unfold calculate_business_density.
  destruct (_fetch_census_acs_data location st) as [d st'].
  set (den := if use_households then total_households d else population d).
  cbn [business_density population_base].
  split; [reflexivity|]. split; [reflexivity|].
  destruct (Qltb 0 den) eqn:E; [|split; qlra].
  apply HHIFacts.Qltb_iff in E.
  assert (0 <= / den) by (apply Qinv_le_0_compat; qlra).
  assert (inject_Z (Z.of_nat c1) <= inject_Z (Z.of_nat c2)) as Hq
    by (rewrite <- Zle_Qle; lia).
  assert (0 <= inject_Z (Z.of_nat c1)) as Hq0
    by (change 0 with (inject_Z 0); rewrite <- Zle_Qle; lia).
  unfold Qdiv. split.
  - apply Qmult_le_0_compat; assumption.
  - apply Qmult_le_compat_r; assumption.
Qed.

Lemma density_monotone_count_witness :
  (1 <= 3)%nat /\
  let (r1, st1) := calculate_business_density 1 "Austin" "hvac" false
                     DensityFacts.fresh_service in
  let (r2, st2) := calculate_business_density 3 "Austin" "hvac" false
                     DensityFacts.fresh_service in
  st1 = st2 /\ population_base r1 = population_base r2 /\
  0 <= business_density r1 <= business_density r2.
Proof.
  split; [lia|]. apply density_monotone_count. lia.
Defined.

End CensusFacts.

(* ------------------------------------------------------------------ *)
(** ** Revenue estimator: range, confidence and input normalisation *)
Module EstimateFacts.
Import PyStr Revenue RevenueFacts.
Local Open Scope R_scope.

Lemma log1p_guarded_clamp n : log1p_guarded n = log1p_guarded (Z.max n 0).
Proof.
  unfold log1p_guarded. destruct (Z.leb_spec 0 n) as [H|H].
  - rewrite Z.max_l by exact H. destruct (0 <=? n)%Z eqn:E; [reflexivity|].
    apply Z.leb_gt in E. lia.
  - rewrite Z.max_r by lia. simpl. rewrite Rplus_0_r, ln_1. reflexivity.
Qed.

Lemma leb_clamp (k n : Z) : (0 < k)%Z -> (k <=? n)%Z = (k <=? Z.max n 0)%Z.
Proof.
  intros Hk. destruct (Z.leb_spec k n), (Z.leb_spec k (Z.max n 0)); lia.
Qed.

Lemma industry_key_lower industry : industry_key (lower industry) = industry_key industry.
Proof.
  unfold industry_key. destruct industry as [|c s]; [reflexivity|].
  transitivity (replace_space (lower (lower (String c s)))); [reflexivity|].
  rewrite StringFacts.lower_idem. reflexivity.
Qed.

Lemma log_pictures_mono a b r p1 p2 :
  (0 < a)%Z -> (0 < b)%Z -> (p1 <= p2)%Z ->
  0 <= IZR a * log1p_guarded r + IZR b * log1p_guarded p1 <=
       IZR a * log1p_guarded r + IZR b * log1p_guarded p2.
Proof.
  intros Ha Hb Hp. apply IZR_lt in Ha, Hb.
  pose proof (log1p_guarded_nonneg r). pose proof (log1p_guarded_nonneg p1).
  pose proof (log1p_guarded_mono p1 p2 Hp).
  split; nra.
Qed.

(** Extra X19: every revenue estimate has a confidence score between 0.7
    and 0.95, and a range with [0 < revenue_range_low < revenue_estimate <
    revenue_range_high], the bounds being 75% and 125% of the estimate. *)
Theorem revenue_range_and_confidence name reviews pictures industry af :
  let r := calculate_revenue_estimate name reviews pictures industry af in
  7 / 10 <= confidence_score r <= 95 / 100 /\
  0 < revenue_range_low r < revenue_estimate r /\
  revenue_estimate r < revenue_range_high r /\
  revenue_range_low r = revenue_estimate r * (75 / 100) /\
  revenue_range_high r = revenue_estimate r * (125 / 100).
Proof.
  cbv zeta.
  unfold calculate_revenue_estimate. destruct (coefficients industry) as [a b].
  cbn [revenue_estimate revenue_range_low revenue_range_high confidence_score].
  set (e := Rmax _ minimum_revenue).
  assert (150000 <= e) as Hf by (unfold e, minimum_revenue; apply Rmax_r).
  clearbody e.
  split; [|split; [split; lra | split; [lra | split; reflexivity]]].
  set (c2 := if (50 <=? reviews)%Z then 1 / 10 else 0).
  set (c3 := if (10 <=? pictures)%Z then 1 / 10 else 0).
  set (c4 := match af with
             | Some a => if (2 <=? af_len a)%nat then 1 / 10 else 0
             | None => 0 end).
  assert (0 <= c2) by (unfold c2; destruct (50 <=? reviews)%Z; lra).
  assert (0 <= c3) by (unfold c3; destruct (10 <=? pictures)%Z; lra).
  assert (0 <= c4) by (unfold c4; destruct af as [x|]; [destruct (2 <=? af_len x)%nat|]; lra).
  clearbody c2 c3 c4. unfold Rmin.
  destruct (Rle_dec (7 / 10 + c2 + c3 + c4) (95 / 100)); lra.
Qed.

(** The revenue result with its echoed ['data_sources'] counts replaced. *)
Definition with_data_counts (rc pc : Z) (r : RevenueResult) : RevenueResult :=
  mkRevenue (revenue_estimate r) (revenue_range_low r) (revenue_range_high r)
            (confidence_score r) (fc_alpha_coefficient r) (fc_beta_coefficient r)
            (fc_log_reviews r) (fc_log_pictures r) (fc_base_calculation r)
            (fc_adjustment_factor r) rc pc (ds_industry r)
            (ds_additional_factors r) (methodology r).

(** The revenue result with its echoed ['data_sources'] industry replaced. *)
Definition with_data_industry (ind : string) (r : RevenueResult) : RevenueResult :=
  mkRevenue (revenue_estimate r) (revenue_range_low r) (revenue_range_high r)
            (confidence_score r) (fc_alpha_coefficient r) (fc_beta_coefficient r)
            (fc_log_reviews r) (fc_log_pictures r) (fc_base_calculation r)
            (fc_adjustment_factor r) (ds_review_count r) (ds_picture_count r) ind
            (ds_additional_factors r) (methodology r).

(** Extra X20: a negative review or picture count is treated exactly as
    zero: the result for the counts is the one for [max(count, 0)] (the
    estimate, range, confidence and every formula component), except that
    ['data_sources'] echoes the counts as given. *)
Theorem revenue_negative_counts_as_zero name reviews pictures industry af :
  ds_review_count (calculate_revenue_estimate name reviews pictures industry af) =
    reviews /\
  ds_picture_count (calculate_revenue_estimate name reviews pictures industry af) =
    pictures /\
  calculate_revenue_estimate name reviews pictures industry af =
  with_data_counts reviews pictures
    (calculate_revenue_estimate name (Z.max reviews 0) (Z.max pictures 0) industry af).
Proof.
  unfold calculate_revenue_estimate. destruct (coefficients industry) as [a b].
  split; [reflexivity|]. split; [reflexivity|].
  rewrite (log1p_guarded_clamp reviews), (log1p_guarded_clamp pictures).
  rewrite (leb_clamp 50 reviews), (leb_clamp 10 pictures) by lia.
  reflexivity.
Qed.

(** Extra X21: the industry name is case-insensitive: [industry] and
    [industry.lower()] pick the same coefficients and give the same result
    (so "HVAC" and "hvac" agree), except that ['data_sources'] echoes the
    industry as given. *)
Theorem revenue_industry_case_insensitive name reviews pictures industry af :
  ds_industry (calculate_revenue_estimate name reviews pictures industry af) =
    industry /\
  calculate_revenue_estimate name reviews pictures industry af =
  with_data_industry industry
    (calculate_revenue_estimate name reviews pictures (lower industry) af).
Proof.
  unfold calculate_revenue_estimate, coefficients.
  rewrite industry_key_lower.
  destruct (match lookup_coeff (industry_key industry) industry_coefficients with
            | Some c => c | None => general_coefficients end).
  split; reflexivity.
Qed.

(** Extra X22: with the review count, industry and additional factors
    fixed, the revenue estimate never decreases when the picture count
    grows. *)
Theorem revenue_monotone_pictures name reviews industry af p1 p2 :
  (p1 <= p2)%Z ->
  revenue_estimate (calculate_revenue_estimate name reviews p1 industry af) <=
  revenue_estimate (calculate_revenue_estimate name reviews p2 industry af).
Proof.
  intros Hp. rewrite !revenue_estimate_def.
  destruct (coefficients_pos industry) as [Ha Hb].
  apply clamp_scaled_mono.
  - apply log_pictures_mono; assumption.
  - unfold minimum_revenue. lra.
Qed.

Lemma revenue_monotone_pictures_witness :
  (3 <= 40)%Z /\
  revenue_estimate (calculate_revenue_estimate "Bright Smile" 80 3 "Dental" None) <=
  revenue_estimate (calculate_revenue_estimate "Bright Smile" 80 40 "Dental" None).
Proof.
  split; [lia|]. apply revenue_monotone_pictures. lia.
Defined.

End EstimateFacts.

(* ------------------------------------------------------------------ *)
(** ** Address parsing in the fast market scan *)
Module AddressFacts.
Import PyStr Relevance FastScan.
Local Open Scope string_scope.

Lemma str_append_assoc (a b c : string) : (a ++ b) ++ c = a ++ (b ++ c).
Proof. induction a as [|x a IH]; simpl; [reflexivity | rewrite IH; reflexivity]. Qed.

Lemma str_append_nil (a : string) : a ++ EmptyString = a.
Proof. induction a as [|x a IH]; simpl; [reflexivity | rewrite IH; reflexivity]. Qed.

Lemma rev_str_rev_str s acc acc2 :
  rev_str (rev_str s acc) acc2 = rev_str acc (s ++ acc2).
Proof.
  revert acc acc2. induction s as [|c s IH]; intros acc acc2; simpl; [reflexivity|].
  rewrite IH. reflexivity.
Qed.

Lemma rev_str_app a b acc : rev_str (a ++ b) acc = rev_str b (rev_str a acc).
Proof.
  revert acc. induction a as [|c a IH]; intros acc; simpl; [reflexivity | apply IH].
Qed.

(** A string whose first and last characters are not white space is its
    own [strip()]. *)
Lemma str_strip_id c x d :
  py_isspace c = false -> py_isspace d = false ->
  str_strip (String c (x ++ String d EmptyString)) = String c (x ++ String d EmptyString).
Proof.
  intros Hc Hd. unfold str_strip. cbn [str_lstrip]. rewrite Hc.
  change (String c (x ++ String d EmptyString))
    with ((String c x) ++ String d EmptyString).
  rewrite rev_str_app. cbn [rev_str]. cbn [str_lstrip]. rewrite Hd.
  cbn [rev_str]. rewrite rev_str_rev_str. cbn [rev_str append]. reflexivity.
Qed.

Lemma str_strip_space s : str_strip (String " " s) = str_strip s.
Proof. reflexivity. Qed.

Lemma last_char_split s :
  s <> EmptyString -> exists x d, s = x ++ String d EmptyString.
Proof.
  induction s as [|c s IH]; [congruence|]. intros _.
  destruct s as [|c' s'].
  - exists EmptyString, c. reflexivity.
  - destruct (IH ltac:(discriminate)) as (x & d & Hx).
    exists (String c x), d. rewrite Hx. reflexivity.
Qed.

Lemma no_space_app_l a b :
  existsb py_isspace (list_ascii_of_string (a ++ b)) = false ->
  existsb py_isspace (list_ascii_of_string b) = false.
Proof.
  induction a as [|c a IH]; simpl; [auto|].
  intros H. apply orb_false_iff in H. apply IH, H.
Qed.

Lemma split_on_comma_free x y :
  existsb (fun c => Ascii.eqb c ",") (list_ascii_of_string x) = false ->
  split_on "," (x ++ String "," y) = x :: split_on "," y.
Proof.
  induction x as [|c x IH]; intros H; simpl.
  - reflexivity.
  - simpl in H. apply orb_false_iff in H. destruct H as [Hc H].
    rewrite Hc, (IH H). reflexivity.
Qed.

Lemma split_on_comma_free_end x :
  existsb (fun c => Ascii.eqb c ",") (list_ascii_of_string x) = false ->
  split_on "," x = [x].
Proof.
  induction x as [|c x IH]; intros H; simpl; [reflexivity|].
  simpl in H. apply orb_false_iff in H. destruct H as [Hc H].
  rewrite Hc, (IH H). reflexivity.
Qed.

Lemma comma_free_app a b :
  existsb (fun c => Ascii.eqb c ",") (list_ascii_of_string a) = false ->
  existsb (fun c => Ascii.eqb c ",") (list_ascii_of_string b) = false ->
  existsb (fun c => Ascii.eqb c ",") (list_ascii_of_string (a ++ b)) = false.
Proof.
  induction a as [|c a IH]; simpl; [auto|].
  intros Ha Hb. apply orb_false_iff in Ha. destruct Ha as [Hc Ha].
  rewrite Hc, (IH Ha Hb). reflexivity.
Qed.

Lemma split_ws_from_word cur x r :
  existsb py_isspace (list_ascii_of_string x) = false ->
  split_ws_from cur (x ++ r) = split_ws_from (cur ++ x) r.
Proof.
  revert cur. induction x as [|c x IH]; intros cur H; simpl.
  - rewrite str_append_nil. reflexivity.
  - simpl in H. apply orb_false_iff in H. destruct H as [Hc H].
    rewrite Hc, (IH _ H), str_append_assoc. reflexivity.
Qed.

Lemma split_ws_two a b :
  a <> EmptyString -> b <> EmptyString ->
  existsb py_isspace (list_ascii_of_string a) = false ->
  existsb py_isspace (list_ascii_of_string b) = false ->
  split_ws (a ++ String " " b) = [a; b].
Proof.
  intros Ha Hb Hsa Hsb. unfold split_ws.
  rewrite (split_ws_from_word _ _ _ Hsa). simpl.
  assert (is_nonempty a = true) as -> by (destruct a; [congruence | reflexivity]).
  rewrite <- (str_append_nil b) at 1.
  rewrite (split_ws_from_word _ _ _ Hsb). simpl.
  assert (is_nonempty b = true) as -> by (destruct b; [congruence | reflexivity]).
  reflexivity.
Qed.

Lemma strip_state_zip state zip :
  state <> EmptyString -> zip <> EmptyString ->
  existsb py_isspace (list_ascii_of_string state) = false ->
  existsb py_isspace (list_ascii_of_string zip) = false ->
  str_strip (state ++ String " " zip) = state ++ String " " zip.
Proof.
  intros Hs Hz Hss Hsz.
  destruct state as [|c s]; [congruence|].
  destruct (last_char_split zip Hz) as (x & d & ->).
  simpl in Hss. apply orb_false_iff in Hss. destruct Hss as [Hc _].
  assert (py_isspace d = false) as Hd.
  { pose proof (no_space_app_l _ _ Hsz) as H. simpl in H.
    rewrite orb_false_r in H. exact H. }
  change (String c s ++ String " " (x ++ String d EmptyString))
    with (String c (s ++ String " " (x ++ String d EmptyString))).
  replace (s ++ String " " (x ++ String d EmptyString))
    with ((s ++ String " " x) ++ String d EmptyString)
    by (rewrite str_append_assoc; reflexivity).
  apply str_strip_id; assumption.
Qed.

(** Extra X8: [_parse_address] recovers the parts of an address written
    as [line1 + ", " + city + ", " + state + " " + zip], optionally followed
    by further comma-separated text (such as ", USA"), when no part contains
    a comma, line1 and city have no surrounding white space, and state and
    zip are non-empty words without white space. *)
Theorem parse_address_roundtrip line1 city state zip tail :
  existsb (fun c => Ascii.eqb c ",") (list_ascii_of_string line1) = false ->
  existsb (fun c => Ascii.eqb c ",") (list_ascii_of_string city) = false ->
  existsb (fun c => Ascii.eqb c ",") (list_ascii_of_string state) = false ->
  existsb (fun c => Ascii.eqb c ",") (list_ascii_of_string zip) = false ->
  str_strip line1 = line1 -> str_strip city = city ->
  state <> EmptyString -> zip <> EmptyString ->
  existsb py_isspace (list_ascii_of_string state) = false ->
  existsb py_isspace (list_ascii_of_string zip) = false ->
  (tail = EmptyString \/ exists t, tail = String "," t) ->
  _parse_address (line1 ++ ", " ++ city ++ ", " ++ state ++ " " ++ zip ++ tail) =
  (line1, city, state, zip).
Proof.
  intros Hc1 Hc2 Hc3 Hc4 Hs1 Hs2 Hne3 Hne4 Hw3 Hw4 Ht.
  set (third := String " " (state ++ String " " zip)).
  assert (existsb (fun c => Ascii.eqb c ",") (list_ascii_of_string third) = false)
    as Hc5.
  { unfold third. simpl. apply comma_free_app; [exact Hc3|]. simpl. exact Hc4. }
  assert (split_on "," (line1 ++ ", " ++ city ++ ", " ++ state ++ " " ++ zip ++ tail) =
          line1 :: String " " city :: third ::
            match tail with String _ t => split_on "," t | EmptyString => [] end)
    as Hsplit.
  { change (", " ++ city ++ ", " ++ state ++ " " ++ zip ++ tail)
      with (String "," (String " " (city ++ String "," (String " " (state ++ String " " (zip ++ tail)))))).
    rewrite (split_on_comma_free _ _ Hc1).
    change (String " " (city ++ String "," (String " " (state ++ String " " (zip ++ tail)))))
      with (String " " city ++ String "," (String " " (state ++ String " " (zip ++ tail)))).
    rewrite (split_on_comma_free (String " " city)) by (simpl; exact Hc2).
    replace (String " " (state ++ String " " (zip ++ tail))) with (third ++ tail)
      by (unfold third; simpl; rewrite !str_append_assoc; reflexivity).
    f_equal. f_equal.
    destruct Ht as [-> | [t ->]].
    - rewrite str_append_nil. apply split_on_comma_free_end, Hc5.
    - apply split_on_comma_free, Hc5. }
  unfold _parse_address. rewrite Hsplit.
  assert (is_nonempty (line1 ++ ", " ++ city ++ ", " ++ state ++ " " ++ zip ++ tail) = true)
    as ->.
  { destruct line1; reflexivity. }
  cbn [negb List.length Nat.leb nth].
  rewrite str_strip_space, Hs1, Hs2.
  unfold third. rewrite str_strip_space, strip_state_zip by assumption.
  rewrite split_ws_two by assumption. reflexivity.
Qed.

Lemma parse_address_roundtrip_witness :
  _parse_address ("12 Main St" ++ ", " ++ "Springfield" ++ ", " ++ "IL" ++ " " ++
                  "62701" ++ ", USA") =
  ("12 Main St", "Springfield", "IL", "62701").
Proof.
  apply parse_address_roundtrip; try reflexivity; try discriminate.
  right. exists " USA". reflexivity.
Defined.

End AddressFacts.
